(** * EventPreProcess: event-to-frame accumulation, frame selection and
      contact-label rotation

    A shallow embedding of [src/imports/EventPreProcess.py].

    Numbers.  The Python code works on numpy floats.  Here a number is an
    exact rational ([Q]): the counts, cursors and comparisons the properties
    below depend on are the same in both, rounding is not modelled.
    [SelectFrames], whose result hangs on comparing small differences with a
    tolerance, is written over a number interface and also run on binary64
    floats.  Where the code compares a timestamp with a bound that it
    computes from a grid timestamp and a window ([ts - time_window],
    [ts - time_window/2], [ts + time_window/2]), the properties that depend
    on the bound take the grid timestamps and the window to be integers of
    magnitude at most 2^51 ([exact_time]), for which binary64 computes the
    bound exactly.  The quotients that [ConcatenateEvents] writes to channel
    2 at the pixels that have events are float32 values of a float64
    division (by zero for a grid whose last two entries coincide, where [Q]
    yields 0 and numpy [inf] or [nan]); no property below speaks about them.
    In [EventBinning], where a quotient becomes an index, the model raises as
    Python does on a zero divisor; the index itself is the floor of the exact
    quotient.

    Arrays.  A numpy array of shape (h, w, c) is a nested list of rows, cells
    and channels; the dimensions are natural numbers.  Indexing follows numpy:
    an index [i] with [0 <= i < n] selects position [i], one with
    [-n <= i < 0] selects [n + i], anything else raises [IndexError].

    Effects.  Python exceptions are the [Raise] branch of [result]; loops with
    a mutable cursor are recursive functions that thread the cursor; the
    content of a buffer that numpy allocates without initialising it is a
    parameter ([junk]). *)

From Stdlib Require Import List ZArith QArith Qabs Qround Lia Lqa Bool PrimFloat.
Import ListNotations.

Open Scope Q_scope.

(* Decimal literals of binary64 type denote the nearest binary64 value, as in
   Python. *)
Set Warnings "-inexact-float".

(** ** Exceptions and the error monad *)

Inductive exn : Type :=
| IndexError
| ZeroDivisionError
| ValueError
| OverflowError.

Inductive result (A : Type) : Type :=
| Ok (a : A)
| Raise (e : exn).

Arguments Ok {A} a.
Arguments Raise {A} e.

Definition bind {A B : Type} (m : result A) (k : A -> result B) : result B :=
  match m with
  | Ok a => k a
  | Raise e => Raise e
  end.

Notation "x <- m ;; k" := (bind m (fun x => k))
  (at level 61, m at next level, right associativity).
Notation "m ;;; k" := (bind m (fun _ => k))
  (at level 61, right associativity).

(** ** Numbers *)

(** Python's [a > b] on numbers. *)
Definition Qgtb (a b : Q) : bool := negb (Qle_bool a b).

(** Python's [a < b] on numbers. *)
Definition Qltb (a b : Q) : bool := negb (Qle_bool b a).

(** Python's [int(q)]: truncation toward zero. *)
Definition py_int (q : Q) : Z := Z.quot (Qnum q) (Zpos (Qden q)).

(** The integer [n] as a number. *)
Definition of_nat (n : nat) : Q := inject_Z (Z.of_nat n).

(** ** Arrays *)

Definition ndarray2 : Type := list (list Q).
Definition ndarray3 : Type := list (list (list Q)).

(** [np.zeros((h, w))] and [np.zeros((h, w, c))]. *)
Definition np_zeros2 (h w : nat) : ndarray2 := repeat (repeat 0 w) h.
Definition np_zeros3 (h w c : nat) : ndarray3 := repeat (repeat (repeat 0 c) w) h.

(** numpy's resolution of one index against an axis of length [n]. *)
Definition norm_index (n : nat) (i : Z) : result nat :=
  if ((0 <=? i) && (i <? Z.of_nat n))%Z then Ok (Z.to_nat i)
  else if ((- Z.of_nat n <=? i) && (i <? 0))%Z then Ok (Z.to_nat (Z.of_nat n + i))
  else Raise IndexError.

(** In-place change of position [i] (already resolved) of a list. *)
Fixpoint list_alter {A : Type} (f : A -> result A) (i : nat) (l : list A)
  : result (list A) :=
  match l, i with
  | [], _ => Raise IndexError
  | a :: l', O => a' <- f a ;; Ok (a' :: l')
  | a :: l', S i' => l'' <- list_alter f i' l' ;; Ok (a :: l'')
  end.

(** [l[i] = f(l[i])] with numpy index resolution. *)
Definition py_alter {A : Type} (f : A -> result A) (i : Z) (l : list A)
  : result (list A) :=
  n <- norm_index (length l) i ;; list_alter f n l.

(** [a[y, x, c] = f(a[y, x, c])]. *)
Definition alter3 (f : Q -> Q) (y x c : Z) (a : ndarray3) : result ndarray3 :=
  py_alter (py_alter (py_alter (fun q => Ok (f q)) c) x) y a.

(** [a[y, x] = f(a[y, x])]. *)
Definition alter2 (f : Q -> Q) (y x : Z) (a : ndarray2) : result ndarray2 :=
  py_alter (py_alter (fun q => Ok (f q)) x) y a.

(** Reading [a[y][x][c]] and [a[y][x]] at resolved positions. *)
Definition get3 (a : ndarray3) (y x c : nat) : option Q :=
  match nth_error a y with
  | Some row =>
      match nth_error row x with
      | Some cell => nth_error cell c
      | None => None
      end
  | None => None
  end.

Definition get2 (a : ndarray2) (y x : nat) : option Q :=
  match nth_error a y with
  | Some row => nth_error row x
  | None => None
  end.

(** The entry [a[y][x]] of an array known to have it. *)
Definition at2 (a : ndarray2) (y x : nat) : Q := nth x (nth y a []) 0.

Fixpoint imap {A B : Type} (f : nat -> A -> B) (i : nat) (l : list A) : list B :=
  match l with
  | [] => []
  | a :: l' => f i a :: imap f (S i) l'
  end.

(** Sum of all entries of channel [c] of a frame. *)
Definition sum_list (l : list Q) : Q := fold_right Qplus 0 l.

Definition channel_sum (c : nat) (a : ndarray3) : Q :=
  sum_list (map (fun row => sum_list (map (fun cell => nth c cell 0) row)) a).

(** ** Events *)

(** One row [x, y, timestamp, polarity] of the event table:
    [event[0]], [event[1]], [event[2]], [event[3]]. *)
Record event : Type := mk_event {
  ev_x : Q;
  ev_y : Q;
  ev_ts : Q;
  ev_pol : Q
}.

(** The argument of the progress [print]: [cursor * 100 / len(event_list)]
    (and [cursor / len(event_list)]) on Python integers raises
    [ZeroDivisionError] for an empty event list.  Nothing else of the print
    is observable. *)
Definition print_progress (cursor len : nat) : result unit :=
  match len with
  | O => Raise ZeroDivisionError
  | S _ => Ok tt
  end.

(** [l[-1] - l[-2]] on a Python sequence. *)
Definition last_gap (time_steps : list Q) : result Q :=
  match rev time_steps with
  | a :: b :: _ => Ok (a - b)
  | _ => Raise IndexError
  end.

(** Non-decreasing timestamps (the event-stream invariant). *)
Fixpoint sorted_by_ts (l : list event) : bool :=
  match l with
  | [] => true
  | a :: l' =>
      match l' with
      | [] => true
      | b :: _ => Qle_bool (ev_ts a) (ev_ts b) && sorted_by_ts l'
      end
  end.

(** The pixel of an event lies inside an image of [h] rows and [w] columns. *)
Definition in_bounds (h w : nat) (e : event) : Prop :=
  (0 <= py_int (ev_x e) < Z.of_nat w)%Z /\ (0 <= py_int (ev_y e) < Z.of_nat h)%Z.

(** ** ConcatenateEvents (three-channel timestep binning) *)

(** [np.divide(a, b, where=b != 0)] called without [out]: numpy allocates the
    result with [np.empty], writes the quotient where the condition holds and
    leaves every other position as the fresh buffer had it.  [junk y x] is the
    content of that buffer. *)
Definition np_divide_where_nonzero (junk : nat -> nat -> Q) (a b : ndarray2)
  : ndarray2 :=
  imap (fun y row =>
          imap (fun x q => if Qeq_bool q 0 then junk y x else at2 a y x / q)
               O row)
       O b.

Fixpoint replace_nth {A : Type} (n : nat) (v : A) (l : list A) : list A :=
  match l, n with
  | [], _ => []
  | _ :: l', O => v :: l'
  | a :: l', S n' => a :: replace_nth n' v l'
  end.

(** [img[:, :, c] = m] for [m] of the shape of the first two axes. *)
Definition set_channel (c : nat) (m : ndarray2) (img : ndarray3) : ndarray3 :=
  imap (fun y row => imap (fun x cell => replace_nth c (at2 m y x) cell) O row)
       O img.

(** The inner [for i in range(event_iterator, len(event_list))] of
    [ConcatenateEvents]: [evs] is [event_list[event_iterator:]], the head of
    [evs] is [event_list[i]].  Returns the cursor and the frame appended by
    the [break] branch, if the loop reached it. *)
Fixpoint ConcatenateEvents_scan (junk : nat -> nat -> Q) (ts time_step : Q)
  (im_height im_width : nat) (evs : list event) (event_iterator : nat)
  (event_image : ndarray3) (counter_matrix timestamp_matrix : ndarray2)
  : result (nat * option ndarray3) :=
  match evs with
  | [] => Ok (event_iterator, None)
  | event :: evs' =>
      let event_iterator := S event_iterator in
      if Qgtb (ev_ts event) ts then
        let event_image := set_channel 2 (np_zeros2 im_height im_width) event_image in
        let event_image :=
          set_channel 2 (np_divide_where_nonzero junk timestamp_matrix counter_matrix)
                      event_image in
        Ok (event_iterator, Some event_image)
      else
        let y := py_int (ev_y event) in
        let x := py_int (ev_x event) in
        event_image <-
          (if Qgtb (ev_pol event) 0
           then alter3 (fun q => q + 1) y x 0 event_image
           else alter3 (fun q => q + 1) y x 1 event_image) ;;
        counter_matrix <- alter2 (fun q => q + 1) y x counter_matrix ;;
        timestamp_matrix <-
          alter2 (fun q => Qabs (ts - ev_ts event - time_step) / time_step + q)
                 y x timestamp_matrix ;;
        ConcatenateEvents_scan junk ts time_step im_height im_width evs'
          event_iterator event_image counter_matrix timestamp_matrix
  end.

(** The outer [for ts in time_steps].  [junk k] is the content of the buffer
    that the [np.divide] of the frame appended at position [k] gets. *)
Fixpoint ConcatenateEvents_loop (junk : nat -> nat -> nat -> Q)
  (event_list : list event) (time_step : Q) (im_height im_width : nat)
  (time_steps : list Q) (event_iterator : nat) (event_images_list : list ndarray3)
  : result (nat * list ndarray3) :=
  match time_steps with
  | [] => Ok (event_iterator, event_images_list)
  | ts :: time_steps' =>
      print_progress event_iterator (length event_list) ;;;
      r <- ConcatenateEvents_scan (junk (length event_images_list)) ts time_step
             im_height im_width (skipn event_iterator event_list) event_iterator
             (np_zeros3 im_height im_width 3)
             (np_zeros2 im_height im_width) (np_zeros2 im_height im_width) ;;
      ConcatenateEvents_loop junk event_list time_step im_height im_width
        time_steps' (fst r)
        (match snd r with
         | Some event_image => event_images_list ++ [event_image]
         | None => event_images_list
         end)
  end.

Definition ConcatenateEvents (junk : nat -> nat -> nat -> Q)
  (event_list : list event) (time_steps : list Q) (im_height im_width : nat)
  : result (list ndarray3 * list event) :=
  time_step <- last_gap time_steps ;;
  r <- ConcatenateEvents_loop junk event_list time_step im_height im_width
         time_steps O [] ;;
  Ok (snd r, skipn (fst r) event_list).

(** A heap whose fresh buffers happen to be zero-filled. *)
Definition zero_junk : nat -> nat -> nat -> Q := fun _ _ _ => 0.

Definition ev (x y : Z) (t p : Q) : event :=
  mk_event (inject_Z x) (inject_Z y) t p.

(** ** generateFrames (signed single-channel count) *)

(** The inner loop of [generateFrames]; [time_window] is [None] or a number. *)
Fixpoint generateFrames_scan (ts : Q) (time_window : option Q)
  (evs : list event) (event_iterator : nat) (event_image : ndarray3)
  : result (nat * option ndarray3) :=
  match evs with
  | [] => Ok (event_iterator, None)
  | event :: evs' =>
      let event_iterator := S event_iterator in
      if match time_window with
         | None => true
         | Some tw => Qgtb (ev_ts event) (ts - tw)
         end
      then
        if Qgtb (ev_ts event) ts then
          event_image <- alter3 (fun _ => 0) 201 154 0 event_image ;;
          Ok (event_iterator, Some event_image)
        else
          let y := py_int (ev_y event) in
          let x := py_int (ev_x event) in
          event_image <-
            (if Qgtb (ev_pol event) 0
             then alter3 (fun q => q + 1) y x 0 event_image
             else alter3 (fun q => q - 1) y x 0 event_image) ;;
          generateFrames_scan ts time_window evs' event_iterator event_image
      else generateFrames_scan ts time_window evs' event_iterator event_image
  end.

Fixpoint generateFrames_loop (event_list : list event)
  (im_height im_width im_channel : nat) (time_window : option Q)
  (time_steps : list Q) (event_iterator : nat) (event_images_list : list ndarray3)
  : result (nat * list ndarray3) :=
  match time_steps with
  | [] => Ok (event_iterator, event_images_list)
  | ts :: time_steps' =>
      r <- generateFrames_scan ts time_window (skipn event_iterator event_list)
             event_iterator (np_zeros3 im_height im_width im_channel) ;;
      generateFrames_loop event_list im_height im_width im_channel time_window
        time_steps' (fst r)
        (match snd r with
         | Some event_image => event_images_list ++ [event_image]
         | None => event_images_list
         end)
  end.

Definition generateFrames (event_list : list event) (time_steps : list Q)
  (im_height im_width im_channel : nat) (time_window : option Q)
  : result (list ndarray3 * list event) :=
  r <- generateFrames_loop event_list im_height im_width im_channel time_window
         time_steps O [] ;;
  Ok (snd r, skipn (fst r) event_list).

(** ** generateFrames_temporalROI (event-count binning) *)

Definition event_threshold_classifier : Z := 10000.

(** The inner loop of [generateFrames_temporalROI]; the state also carries
    [event_bus], which lives across grid entries. *)
Fixpoint generateFrames_temporalROI_scan (evs : list event)
  (event_iterator : nat) (event_bus : Z) (event_image : ndarray3)
  : result (nat * Z * option ndarray3) :=
  match evs with
  | [] => Ok (event_iterator, event_bus, None)
  | event :: evs' =>
      let event_iterator := S event_iterator in
      if (event_bus =? event_threshold_classifier)%Z then
        event_image <- alter3 (fun _ => 0) 201 154 0 event_image ;;
        Ok (event_iterator, 0%Z, Some event_image)
      else
        let y := py_int (ev_y event) in
        let x := py_int (ev_x event) in
        event_image <-
          (if Qgtb (ev_pol event) 0
           then alter3 (fun q => q + 1) y x 0 event_image
           else alter3 (fun q => q - 1) y x 0 event_image) ;;
        generateFrames_temporalROI_scan evs' event_iterator (event_bus + 1)%Z
          event_image
  end.

Fixpoint generateFrames_temporalROI_loop (event_list : list event)
  (im_height im_width im_channel : nat)
  (time_steps : list Q) (event_iterator : nat) (event_bus : Z)
  (event_images_list : list ndarray3)
  : result (nat * list ndarray3) :=
  match time_steps with
  | [] => Ok (event_iterator, event_images_list)
  | _ :: time_steps' =>
      r <- generateFrames_temporalROI_scan (skipn event_iterator event_list)
             event_iterator event_bus
             (np_zeros3 im_height im_width im_channel) ;;
      generateFrames_temporalROI_loop event_list im_height im_width im_channel
        time_steps' (fst (fst r)) (snd (fst r))
        (match snd r with
         | Some event_image => event_images_list ++ [event_image]
         | None => event_images_list
         end)
  end.

Definition generateFrames_temporalROI (event_list : list event)
  (time_steps : list Q) (im_height im_width im_channel : nat)
  : result (list ndarray3 * list event) :=
  r <- generateFrames_temporalROI_loop event_list im_height im_width im_channel
         time_steps O 0%Z [] ;;
  Ok (snd r, skipn (fst r) event_list).

(** ** EventBinning (multi-bin temporal decay) *)

(** [for i in range(start, stop): if event_list[i][2] > bound: cursor = i; break].
    [evs] is [event_list[start:stop]]; the result is the new cursor, or
    [None] when the loop ends without [break] and the cursor keeps its value. *)
Fixpoint first_after (bound : Q) (evs : list event) (i : nat) : option nat :=
  match evs with
  | [] => None
  | event :: evs' =>
      if Qgtb (ev_ts event) bound then Some i else first_after bound evs' (S i)
  end.

(** [int(np.floor(a / b))] on numpy floats: a zero divisor gives [nan] or
    [inf], which [int] refuses. *)
Definition floor_div_index (a b : Q) : result Z :=
  if Qeq_bool b 0 then
    if Qeq_bool a 0 then Raise ValueError else Raise OverflowError
  else Ok (Qfloor (a / b)).

(** The third inner loop: bin every event of [event_list[trailing:leading]]. *)
Fixpoint EventBinning_fill (ts bin_step_size : Q) (evs : list event)
  (event_image : ndarray3) : result ndarray3 :=
  match evs with
  | [] => Ok event_image
  | event :: evs' =>
      channel <- floor_div_index (ts - ev_ts event) bin_step_size ;;
      event_image <- alter3 (fun q => q + ev_pol event)
                       (py_int (ev_y event)) (py_int (ev_x event)) channel
                       event_image ;;
      EventBinning_fill ts bin_step_size evs' event_image
  end.

(** [event_list[a:b]] for cursors [a], [b]. *)
Definition slice (a b : nat) (event_list : list event) : list event :=
  firstn (b - a) (skipn a event_list).

Fixpoint EventBinning_loop (event_list : list event)
  (im_height im_width n_bin : nat) (bin_step_size : Q) (time_steps : list Q)
  (event_leading_iterator event_trailing_iterator : nat)
  (event_images_list : list ndarray3) : result (list ndarray3) :=
  match time_steps with
  | [] => Ok event_images_list
  | ts :: time_steps' =>
      print_progress event_leading_iterator (length event_list) ;;;
      let event_image := np_zeros3 im_height im_width n_bin in
      let event_leading_iterator :=
        match first_after ts (skipn event_leading_iterator event_list)
                event_leading_iterator with
        | Some i => i
        | None => event_leading_iterator
        end in
      let event_trailing_iterator :=
        match first_after (ts - of_nat n_bin * bin_step_size)
                (slice event_trailing_iterator event_leading_iterator event_list)
                event_trailing_iterator with
        | Some i => i
        | None => event_trailing_iterator
        end in
      event_image <-
        EventBinning_fill ts bin_step_size
          (slice event_trailing_iterator event_leading_iterator event_list)
          event_image ;;
      EventBinning_loop event_list im_height im_width n_bin bin_step_size
        time_steps' event_leading_iterator event_trailing_iterator
        (event_images_list ++ [event_image])
  end.

Definition EventBinning (event_list : list event) (time_steps : list Q)
  (im_height im_width n_bin : nat) (bin_step_size : Q)
  : result (list ndarray3) :=
  EventBinning_loop event_list im_height im_width n_bin bin_step_size
    time_steps O O [].

(** ** SelectFrames *)

(** [SelectFrames] compares differences of timestamps with a tolerance, where
    rounding can decide.  It is written over the operations it uses, so that
    it can be run on exact rationals and on binary64 floats. *)
Class Number (T : Type) : Type := {
  num_sub : T -> T -> T;
  num_abs : T -> T;
  num_ltb : T -> T -> bool;
  num_gtb : T -> T -> bool;
  num_one : T
}.

#[export] Instance Q_Number : Number Q := {
  num_sub := Qminus;
  num_abs := Qabs;
  num_ltb := Qltb;
  num_gtb := Qgtb;
  num_one := 1
}.

#[export] Instance binary64_Number : Number float := {
  num_sub := PrimFloat.sub;
  num_abs := PrimFloat.abs;
  num_ltb := PrimFloat.ltb;
  num_gtb := fun a b => PrimFloat.ltb b a;
  num_one := PrimFloat.one
}.

(** The inner loop of [SelectFrames]: [imgs] is [images_list[i:]].  Returns
    the accepted frame with the new [images_iterator], or [None] when the
    loop ends (by exhaustion or by the early [break]) without a match. *)
Fixpoint SelectFrames_scan {T : Type} `{Number T} {A : Type} (images_ts : list T)
  (ts target_step : T) (imgs : list A) (i : nat) : result (option (A * nat)) :=
  match imgs with
  | [] => Ok None
  | img :: imgs' =>
      match nth_error images_ts i with
      | None => Raise IndexError
      | Some t =>
          if num_ltb (num_abs (num_sub t ts)) target_step then Ok (Some (img, S i))
          else if num_gtb (num_sub t ts) num_one then Ok None
          else SelectFrames_scan images_ts ts target_step imgs' (S i)
      end
  end.

Fixpoint SelectFrames_loop {T : Type} `{Number T} {A : Type}
  (images_list : list A) (images_ts : list T)
  (target_step : T) (desired_timesteps : list T) (images_iterator : nat)
  (desired_frames : list A) : result (list A) :=
  match desired_timesteps with
  | [] => Ok desired_frames
  | ts :: desired_timesteps' =>
      r <- SelectFrames_scan images_ts ts target_step
             (skipn images_iterator images_list) images_iterator ;;
      match r with
      | Some (img, images_iterator') =>
          SelectFrames_loop images_list images_ts target_step desired_timesteps'
            images_iterator' (desired_frames ++ [img])
      | None =>
          SelectFrames_loop images_list images_ts target_step desired_timesteps'
            images_iterator desired_frames
      end
  end.

Definition SelectFrames {T : Type} `{Number T} {A : Type} (images_list : list A)
  (images_ts : list T) (desired_timesteps : list T) (target_step : T)
  : result (list A) :=
  SelectFrames_loop images_list images_ts target_step desired_timesteps O [].

(** ** updateContactStatus *)

(** [l[i]] on a Python sequence. *)
Definition py_get {A : Type} (l : list A) (i : Z) : result A :=
  n <- norm_index (length l) i ;;
  match nth_error l n with
  | Some a => Ok a
  | None => Raise IndexError
  end.

Section ContactStatus.

(** The library functions [math.cos], [math.sin], the constant [math.pi]
    and [np.sqrt]; the program only calls them. *)
Variables (math_cos math_sin : Q -> Q) (math_pi : Q) (np_sqrt : Q -> Q).

(** [np.matmul(rot_mat, v[0:2])] for the 2x2 matrix [rot_mat]. *)
Definition matmul2 (rot_mat : (Q * Q) * (Q * Q)) (v : list Q) : result (Q * Q) :=
  match firstn 2 v with
  | [a; b] =>
      Ok (fst (fst rot_mat) * a + snd (fst rot_mat) * b,
          fst (snd rot_mat) * a + snd (snd rot_mat) * b)
  | _ => Raise ValueError
  end.

(** The [for rot in list_of_rotations] search; [i] is the 1-based position
    of the head of [rots]. *)
Fixpoint nearest_rotation (rotated_contact_status : Q * Q)
  (rots : list (list Q)) (i : Z) (best_rot_diff : Q) (best_rot_idx : Z)
  : result Z :=
  match rots with
  | [] => Ok best_rot_idx
  | rot :: rots' =>
      r0 <- py_get rot 0 ;;
      r1 <- py_get rot 1 ;;
      let diff_vals :=
        np_sqrt ((r0 - fst rotated_contact_status) ^ 2
                 + (r1 - snd rotated_contact_status) ^ 2) in
      if Qgtb best_rot_diff diff_vals
      then nearest_rotation rotated_contact_status rots' (i + 1)%Z diff_vals i
      else nearest_rotation rotated_contact_status rots' (i + 1)%Z
             best_rot_diff best_rot_idx
  end.

Fixpoint updateContactStatus_loop (list_of_rotations : list (list Q))
  (rot_mat : (Q * Q) * (Q * Q)) (labels : list Z) : result (list Z) :=
  match labels with
  | [] => Ok []
  | contact_status :: labels' =>
      out <-
        (if (contact_status =? 0)%Z then Ok 0%Z
         else
           current_rotation <- py_get list_of_rotations (contact_status - 1)%Z ;;
           rotated_contact_status <- matmul2 rot_mat current_rotation ;;
           nearest_rotation rotated_contact_status list_of_rotations 1%Z 100 1%Z) ;;
      rest <- updateContactStatus_loop list_of_rotations rot_mat labels' ;;
      Ok (out :: rest)
  end.

Definition updateContactStatus (list_of_current_contact_status : list Z)
  (list_of_rotations : list (list Q)) (rotation_angle : Q) : result (list Z) :=
  let a := rotation_angle * math_pi / 180 in
  let rot_mat := ((math_cos a, math_sin a), (- math_sin a, math_cos a)) in
  updateContactStatus_loop list_of_rotations rot_mat
    list_of_current_contact_status.

End ContactStatus.

(** ** Quantities the properties speak about *)

(** Channel-0 plus channel-1 entries of a frame, and of a frame sequence. *)
Definition count01 (a : ndarray3) : Q := channel_sum 0 a + channel_sum 1 a.

Definition frames_count01 (frames : list ndarray3) : Q :=
  sum_list (map count01 frames).

(** Array shapes. *)
Definition shape2 (h w : nat) (a : ndarray2) : Prop :=
  length a = h /\ Forall (fun row => length row = w) a.

Definition shape3 (h w c : nat) (a : ndarray3) : Prop :=
  length a = h /\
  Forall (fun row => length row = w /\ Forall (fun cell => length cell = c) row) a.

(** The events consumed for the grid timestamp [ts] from the stream [evs]:
    those before the first event whose timestamp exceeds [ts]. *)
Fixpoint consumed (ts : Q) (evs : list event) : list event :=
  match evs with
  | [] => []
  | e :: evs' => if Qgtb (ev_ts e) ts then [] else e :: consumed ts evs'
  end.

(** The stream from the first event whose timestamp exceeds [ts] on, that
    event included; [None] if no event exceeds [ts]. *)
Fixpoint from_boundary (ts : Q) (evs : list event) : option (list event) :=
  match evs with
  | [] => None
  | e :: evs' => if Qgtb (ev_ts e) ts then Some evs else from_boundary ts evs'
  end.

(** The event sets of the timesteps for which [generateFrames] (without
    [time_window]) appends a frame, in order: the scan for the next grid
    timestamp starts behind the boundary event of the previous one. *)
Fixpoint timesteps (time_steps : list Q) (evs : list event) : list (list event) :=
  match time_steps with
  | [] => []
  | ts :: time_steps' =>
      match from_boundary ts evs with
      | Some rest => consumed ts evs :: timesteps time_steps' (tl rest)
      | None => []
      end
  end.

(** Positive-polarity minus non-positive-polarity events of [evs] at pixel
    (row [y], column [x]). *)
Definition at_pixel (y x : nat) (e : event) : bool :=
  (py_int (ev_y e) =? Z.of_nat y)%Z && (py_int (ev_x e) =? Z.of_nat x)%Z.

Definition signed_count (evs : list event) (y x : nat) : Z :=
  (Z.of_nat (length (filter (fun e => at_pixel y x e && Qgtb (ev_pol e) 0) evs))
   - Z.of_nat (length (filter (fun e => at_pixel y x e && negb (Qgtb (ev_pol e) 0))
                              evs)))%Z.

(** Channel 0 of [img] holds the integer [v y x] at every pixel. *)
Definition holds (h w : nat) (img : ndarray3) (v : nat -> nat -> Z) : Prop :=
  forall y x, (y < h)%nat -> (x < w)%nat ->
              get3 img y x 0 = Some (inject_Z (v y x)).

(** The frame [f] shows the event set [seg]: 0 at pixel (201, 154), the
    signed event count of [seg] at every other pixel. *)
Definition frame_of (h w : nat) (f : ndarray3) (seg : list event) : Prop :=
  forall y x, (y < h)%nat -> (x < w)%nat ->
              get3 f y x 0
              = Some (if Nat.eqb y 201 && Nat.eqb x 154 then 0
                      else inject_Z (signed_count seg y x)).

(** The contribution of one event to the signed count of a pixel. *)
Definition signed_unit (e : event) (y x : nat) : Z :=
  if at_pixel y x e then (if Qgtb (ev_pol e) 0 then 1 else -1)%Z else 0%Z.

(** Input label and output label of one position. *)
Definition label_kept (n : nat) (label out : Z) : Prop :=
  (out = 0%Z <-> label = 0%Z) /\
  (out <> 0%Z -> (1 <= out <= Z.of_nat n)%Z).

(** A result whose cursor is counted from position [k] of a longer stream. *)
Definition shift_cursor {A : Type} (k : nat) (r : result (nat * A))
  : result (nat * A) :=
  match r with
  | Ok (it, a) => Ok ((k + it)%nat, a)
  | Raise e => Raise e
  end.

(** The frames of the prefix call of a resumed run, used as an example. *)
Definition prefix_frames_example : list ndarray3 :=
  Eval vm_compute in
    match ConcatenateEvents zero_junk
            [ev 0 0 0.5 1; ev 0 0 1.5 1; ev 0 0 9 1; ev 0 0 10 1] [1; 2] 1 1 with
    | Ok (frames, _) => frames
    | Raise _ => []
    end.

(** ** extractEventsByTime, eventsToFrameSequence, FlipImages *)

(** Exceptions that the accumulators above never raise. *)
Inductive exn_ext : Type :=
| Builtin (e : exn)
| TypeError
| AxisError.

Inductive outcome (A : Type) : Type :=
| Return (a : A)
| Throw (e : exn_ext).

Arguments Return {A} a.
Arguments Throw {A} e.

Definition bind_ext {A B : Type} (m : outcome A) (k : A -> outcome B) : outcome B :=
  match m with
  | Return a => k a
  | Throw e => Throw e
  end.

Notation "x <~ m ;; k" := (bind_ext m (fun x => k))
  (at level 61, m at next level, right associativity).

Definition lift {A : Type} (r : result A) : outcome A :=
  match r with
  | Ok a => Return a
  | Raise e => Throw (Builtin e)
  end.

(** The inner loop of [extractEventsByTime]; [time_window] is [None] or a
    number.  With [None] the first test holds and [ts + time_window/2] then
    divides [None] by 2. *)
Fixpoint extractEventsByTime_scan (ts : Q) (time_window : option Q)
  (evs : list event) (event_iterator : nat) (event_group : list event)
  : outcome (nat * option (list event)) :=
  match evs with
  | [] => Return (event_iterator, None)
  | event :: evs' =>
      let event_iterator := S event_iterator in
      if match time_window with
         | None => true
         | Some tw => Qgtb (ev_ts event) (ts - tw / 2)
         end
      then
        let event_group := event_group ++ [event] in
        match time_window with
        | None => Throw TypeError
        | Some tw =>
            if Qgtb (ev_ts event) (ts + tw / 2)
            then Return (event_iterator, Some event_group)
            else extractEventsByTime_scan ts time_window evs' event_iterator
                   event_group
        end
      else extractEventsByTime_scan ts time_window evs' event_iterator event_group
  end.

Fixpoint extractEventsByTime_loop (event_list : list event)
  (time_window : option Q) (time_steps : list Q) (event_iterator : nat)
  (grouped_events_list : list (list event)) : outcome (list (list event)) :=
  match time_steps with
  | [] => Return grouped_events_list
  | ts :: time_steps' =>
      _ <~ lift (print_progress event_iterator (length event_list)) ;;
      r <~ extractEventsByTime_scan ts time_window
             (skipn event_iterator event_list) event_iterator [] ;;
      extractEventsByTime_loop event_list time_window time_steps' (fst r)
        (match snd r with
         | Some event_group => grouped_events_list ++ [event_group]
         | None => grouped_events_list
         end)
  end.

Definition extractEventsByTime (event_list : list event) (time_steps : list Q)
  (time_window : option Q) : outcome (list (list event)) :=
  extractEventsByTime_loop event_list time_window time_steps O [].

(** The [for i in range(len(events))] loop of [eventsToFrameSequence]:
    [i == len(events) - 1] holds when no event follows. *)
Fixpoint eventsToFrameSequence_loop (ts_min time_window : Q)
  (im_height im_width im_channel : nat) (evs : list event) (time_iterator : Z)
  (event_image : ndarray3) (event_images_list : list ndarray3)
  : result (list ndarray3) :=
  match evs with
  | [] => Ok event_images_list
  | event :: evs' =>
      let y := py_int (ev_y event) in
      let x := py_int (ev_x event) in
      event_image <-
        (if Qgtb (ev_pol event) 0
         then alter3 (fun q => q + 1) y x 0 event_image
         else alter3 (fun q => q - 1) y x 0 event_image) ;;
      if Qgtb (ev_ts event) (inject_Z time_iterator * time_window + ts_min)
         || match evs' with [] => true | _ :: _ => false end
      then
        eventsToFrameSequence_loop ts_min time_window im_height im_width im_channel
          evs' (time_iterator + 1)%Z (np_zeros3 im_height im_width im_channel)
          (event_images_list ++ [event_image])
      else
        eventsToFrameSequence_loop ts_min time_window im_height im_width im_channel
          evs' time_iterator event_image event_images_list
  end.

(** The two [while] loops on [N_frames]: pad with zero frames at the end,
    then delete from the front. *)
Definition fit_N_frames (im_height im_width im_channel : nat) (N_frames : Z)
  (event_images_list : list ndarray3) : list ndarray3 :=
  if (0 <? N_frames)%Z then
    let padded :=
      event_images_list
      ++ repeat (np_zeros3 im_height im_width im_channel)
           (Z.to_nat N_frames - length event_images_list) in
    skipn (length padded - Z.to_nat N_frames) padded
  else event_images_list.

Definition eventsToFrameSequence (events : list event)
  (im_height im_width im_channel : nat) (time_window : Q) (N_frames : Z)
  : result (list ndarray3) :=
  match events with
  | [] => Raise IndexError
  | first :: _ =>
      let ts_min := ev_ts first in
      event_images_list <-
        eventsToFrameSequence_loop ts_min time_window im_height im_width
          im_channel events 1%Z (np_zeros3 im_height im_width im_channel) [] ;;
      Ok (fit_N_frames im_height im_width im_channel N_frames event_images_list)
  end.

(** [np.flip(image, axis)] for an integer [axis] and an image of three axes. *)
Definition np_flip (image : ndarray3) (axis : Z) : outcome ndarray3 :=
  if ((axis =? 0) || (axis =? -3))%Z then Return (rev image)
  else if ((axis =? 1) || (axis =? -2))%Z then Return (map (@rev (list Q)) image)
  else if ((axis =? 2) || (axis =? -1))%Z
       then Return (map (map (@rev Q)) image)
       else Throw AxisError.

Fixpoint FlipImages (image_list : list ndarray3) (axis : Z)
  : outcome (list ndarray3) :=
  match image_list with
  | [] => Return []
  | image :: image_list' =>
      flipped <~ np_flip image axis ;;
      rest <~ FlipImages image_list' axis ;;
      Return (flipped :: rest)
  end.

(** ** Quantities the further properties speak about *)

(** [l1] is [l2] with some elements left out, order kept. *)
Inductive subseq {A : Type} : list A -> list A -> Prop :=
| subseq_nil : subseq [] []
| subseq_skip (a : A) (l1 l2 : list A) : subseq l1 l2 -> subseq l1 (a :: l2)
| subseq_keep (a : A) (l1 l2 : list A) : subseq l1 l2 -> subseq (a :: l1) (a :: l2).

(** A group of [extractEventsByTime] for the grid timestamp [ts]: events
    inside the window around [ts], closed by one event beyond the window. *)
Definition group_for (time_window ts : Q) (group : list event) : Prop :=
  exists (body : list event) (last : event),
    group = body ++ [last] /\
    Forall (fun e => ts - time_window / 2 < ev_ts e /\
                     ev_ts e <= ts + time_window / 2) body /\
    ts + time_window / 2 < ev_ts last /\
    ts - time_window / 2 < ev_ts last.

(** Positive-polarity minus non-positive-polarity events of a stream. *)
Definition signed_total (evs : list event) : Z :=
  (Z.of_nat (length (filter (fun e => Qgtb (ev_pol e) 0) evs))
   - Z.of_nat (length (filter (fun e => negb (Qgtb (ev_pol e) 0)) evs)))%Z.

(** All channel-0 entries of a frame sequence. *)
Definition frames_sum0 (frames : list ndarray3) : Q :=
  sum_list (map (channel_sum 0) frames).

(** What the grid leaves of a stream: for each grid timestamp in turn the
    events up to and including the first one beyond it are gone, and nothing
    is left once a grid timestamp has no event beyond it. *)
Fixpoint remainder (time_steps : list Q) (evs : list event) : list event :=
  match time_steps with
  | [] => evs
  | ts :: time_steps' =>
      match from_boundary ts evs with
      | Some rest => remainder time_steps' (tl rest)
      | None => []
      end
  end.

(** The window test of [generateFrames] for the grid timestamp [ts]. *)
Definition in_window (time_window : option Q) (ts : Q) (e : event) : bool :=
  match time_window with
  | None => true
  | Some tw => Qgtb (ev_ts e) (ts - tw)
  end.

(** The event sets of the timesteps as in [timesteps], each restricted to the
    events inside the window. *)
Fixpoint windowed_timesteps (time_window : option Q) (time_steps : list Q)
  (evs : list event) : list (list event) :=
  match time_steps with
  | [] => []
  | ts :: time_steps' =>
      match from_boundary ts evs with
      | Some rest =>
          filter (in_window time_window ts) (consumed ts evs)
          :: windowed_timesteps time_window time_steps' (tl rest)
      | None => []
      end
  end.

(** A window is unset or not negative. *)
Definition window_ok (time_window : option Q) : Prop :=
  match time_window with
  | None => True
  | Some tw => 0 <= tw
  end.

(** Positive-polarity and non-positive-polarity events of [evs] at pixel
    (row [y], column [x]). *)
Definition positive_count (evs : list event) (y x : nat) : Z :=
  Z.of_nat (length (filter (fun e => at_pixel y x e && Qgtb (ev_pol e) 0) evs)).

Definition nonpositive_count (evs : list event) (y x : nat) : Z :=
  Z.of_nat (length (filter (fun e => at_pixel y x e && negb (Qgtb (ev_pol e) 0))
                           evs)).

(** The normalised timestamp residual of one event for the grid timestamp
    [ts] and the grid spacing [step]. *)
Definition residual (ts step : Q) (e : event) : Q :=
  Qabs (ts - ev_ts e - step) / step.

(** The residuals of the events of [evs] at a pixel, added one after the
    other to [acc]. *)
Fixpoint residual_sum (ts step : Q) (evs : list event) (y x : nat) (acc : Q) : Q :=
  match evs with
  | [] => acc
  | e :: evs' =>
      residual_sum ts step evs' y x
        (if at_pixel y x e then residual ts step e + acc else acc)
  end.

(** The timesteps of [timesteps], each with its grid timestamp. *)
Fixpoint stamped_timesteps (time_steps : list Q) (evs : list event)
  : list (Q * list event) :=
  match time_steps with
  | [] => []
  | ts :: time_steps' =>
      match from_boundary ts evs with
      | Some rest => (ts, consumed ts evs) :: stamped_timesteps time_steps' (tl rest)
      | None => []
      end
  end.

(** The three-channel frame [f] of the embedding shows the timestep [st]:
    positive count, non-positive count and, where the pixel has events, the
    mean residual in rational arithmetic.  An invariant of the proofs; the
    properties speak about channels 0 and 1 only ([frame_counts_of]). *)
Definition frame3_of (h w : nat) (step : Q) (f : ndarray3)
  (st : Q * list event) : Prop :=
  forall y x, (y < h)%nat -> (x < w)%nat ->
    get3 f y x 0 = Some (inject_Z (positive_count (snd st) y x)) /\
    get3 f y x 1 = Some (inject_Z (nonpositive_count (snd st) y x)) /\
    ((positive_count (snd st) y x + nonpositive_count (snd st) y x <> 0)%Z ->
     get3 f y x 2
     = Some (residual_sum (fst st) step (snd st) y x 0
             / inject_Z (positive_count (snd st) y x
                         + nonpositive_count (snd st) y x))).

(** The arrays of one scan of [ConcatenateEvents] hold, at every pixel, the
    counts [p] and [n] and the residual sum [r]. *)
Definition tally (h w : nat) (img : ndarray3) (cm tm : ndarray2)
  (p n : nat -> nat -> Z) (r : nat -> nat -> Q) : Prop :=
  forall y x, (y < h)%nat -> (x < w)%nat ->
    get3 img y x 0 = Some (inject_Z (p y x)) /\
    get3 img y x 1 = Some (inject_Z (n y x)) /\
    get2 cm y x = Some (inject_Z (p y x + n y x)) /\
    get2 tm y x = Some (r y x).

(** Indices that increase strictly, the first one at least [lo]. *)
Fixpoint increasing_from (lo : nat) (l : list nat) : Prop :=
  match l with
  | [] => True
  | i :: l' => (lo <= i)%nat /\ increasing_from (S i) l'
  end.

(** The frame [img] is the one at index [fst pick], and its timestamp is
    within the tolerance of the target [snd pick]. *)
Definition picked {T : Type} `{Number T} {A : Type} (images_list : list A)
  (images_ts : list T) (target_step : T) (img : A) (pick : nat * T) : Prop :=
  nth_error images_list (fst pick) = Some img /\
  exists t, nth_error images_ts (fst pick) = Some t /\
            num_ltb (num_abs (num_sub t (snd pick))) target_step = true.

(** The distance that [updateContactStatus] computes between a table vector
    and the rotated vector. *)
Definition rot_distance (np_sqrt : Q -> Q) (target : Q * Q) (rot : list Q) : Q :=
  np_sqrt ((nth 0 rot 0 - fst target) ^ 2 + (nth 1 rot 0 - snd target) ^ 2).

(** [label] is the 1-based position of the first table vector at the smallest
    distance from [target], that distance being below 100; or 1 if no table
    vector is closer than 100. *)
Definition nearest_label (np_sqrt : Q -> Q) (target : Q * Q)
  (table : list (list Q)) (label : Z) : Prop :=
  (label = 1%Z /\
   Forall (fun rot => 100 <= rot_distance np_sqrt target rot) table)
  \/ exists (k : nat) (rot : list Q),
       label = (1 + Z.of_nat k)%Z /\
       nth_error table k = Some rot /\
       rot_distance np_sqrt target rot < 100 /\
       Forall (fun rot' => rot_distance np_sqrt target rot
                           <= rot_distance np_sqrt target rot') table /\
       forall (j : nat) (rot' : list Q),
         (j < k)%nat -> nth_error table j = Some rot' ->
         rot_distance np_sqrt target rot < rot_distance np_sqrt target rot'.

(** The first two components of [vec], rotated by [rotation_angle] degrees
    as [updateContactStatus] does. *)
Definition rotate_vec (math_cos math_sin : Q -> Q) (math_pi rotation_angle : Q)
  (vec : list Q) : Q * Q :=
  let a := rotation_angle * math_pi / 180 in
  (math_cos a * nth 0 vec 0 + math_sin a * nth 1 vec 0,
   - math_sin a * nth 0 vec 0 + math_cos a * nth 1 vec 0).

(** ** The timesteps of the specification *)

(** Following the specification of the accumulators: for a grid timestamp
    [ts] the events are consumed from the cursor on while
    [timestamp <= ts] (this is [consumed]); the cursor does not move past the
    exceeding event, which stays the first unconsumed event for the next grid
    step.  [unconsumed ts evs] is the stream from that event on. *)
Fixpoint unconsumed (ts : Q) (evs : list event) : list event :=
  match evs with
  | [] => []
  | e :: evs' => if Qgtb (ev_ts e) ts then evs else unconsumed ts evs'
  end.

(** Following the specification: the events consumed in each timestep of the
    grid, one entry per grid timestamp. *)
Fixpoint spec_timesteps (time_steps : list Q) (evs : list event)
  : list (list event) :=
  match time_steps with
  | [] => []
  | ts :: time_steps' =>
      consumed ts evs :: spec_timesteps time_steps' (unconsumed ts evs)
  end.

(** The events at which [generateFrames] (without [time_window]) appends its
    frames, in order: for each grid timestamp the first event beyond it that
    the scan reads. *)
Fixpoint closing_events (time_steps : list Q) (evs : list event) : list event :=
  match time_steps with
  | [] => []
  | ts :: time_steps' =>
      match from_boundary ts evs with
      | Some (b :: rest) => b :: closing_events time_steps' rest
      | _ => []
      end
  end.

(** No event of [evs] lies at pixel (row [y], column [x]). *)
Definition clean_pixel (y x : nat) (evs : list event) : Prop :=
  Forall (fun e => at_pixel y x e = false) evs.

(** The frame [f] shows the event set [seg] outside the pixels of [closed]:
    0 at pixel (201, 154), and the signed event count of [seg] at every other
    pixel at which no event of [closed] lies.  Nothing is said about the
    pixels of [closed]. *)
Definition frame_shows (h w : nat) (f : ndarray3) (seg closed : list event)
  : Prop :=
  forall y x, (y < h)%nat -> (x < w)%nat ->
    if Nat.eqb y 201 && Nat.eqb x 154 then get3 f y x 0 = Some 0
    else clean_pixel y x closed ->
         get3 f y x 0 = Some (inject_Z (signed_count seg y x)).

(** ** Further quantities *)

(** An integer of magnitude at most 2^51.  For two such numbers [a] and [b],
    [a - b], [b / 2], [a - b / 2] and [a + b / 2] are binary64 values, so the
    binary64 arithmetic of the code forms them without rounding and the
    rational bound of the embedding is the bound the code compares with. *)
Definition exact_time (q : Q) : Prop :=
  Qden q = 1%positive /\ (Z.abs (Qnum q) <= 2 ^ 51)%Z.

(** Channels 0 and 1 of the three-channel frame [f] show the event set [seg]:
    the positive and the non-positive count of every pixel. *)
Definition frame_counts_of (h w : nat) (f : ndarray3) (seg : list event) : Prop :=
  forall y x, (y < h)%nat -> (x < w)%nat ->
    get3 f y x 0 = Some (inject_Z (positive_count seg y x)) /\
    get3 f y x 1 = Some (inject_Z (nonpositive_count seg y x)).

(** A stream that reaches the event threshold of [generateFrames_temporalROI]
    twice, used as an example: 20003 events. *)
Definition long_stream_example : list event :=
  repeat (ev 3 2 1 1) (Z.to_nat 20003).

(** * Properties *)

(** ** SelectFrames: the tolerance example *)

(** C5, as the specification states it, does not hold: on frames stamped
    0.0, 0.1, 0.25 and targets 0.0, 0.2 with tolerance 0.06 the result is not
    the single frame stamped 0.0, neither with exact rationals nor with
    binary64 floats. *)
Lemma SelectFrames_tolerance_example_refuted :
  SelectFrames [0; 1; 2]%nat [0; 0.1; 0.25] [0; 0.2] 0.06 <> Ok [0%nat] /\
  SelectFrames [0; 1; 2]%nat [0; 0.1; 0.25]%float [0; 0.2]%float 0.06%float
  <> Ok [0%nat].
Proof. split; vm_compute; discriminate. Qed.

(** C5 (amended): on that input [SelectFrames] returns the frame stamped 0.0
    and the frame stamped 0.25: the target 0.2 skips the frame at 0.1
    (distance 0.1) and accepts the one at 0.25 (distance 0.05 < 0.06).  The
    result is the same with exact rationals and with binary64 floats. *)
Lemma SelectFrames_tolerance_example (A : Type) (f0 f1 f2 : A) :
  SelectFrames [f0; f1; f2] [0; 0.1; 0.25] [0; 0.2] 0.06 = Ok [f0; f2] /\
  SelectFrames [f0; f1; f2] [0; 0.1; 0.25]%float [0; 0.2]%float 0.06%float
  = Ok [f0; f2].
Proof. split; reflexivity. Qed.

(** ** The error monad *)

Lemma bind_Ok_inv {A B : Type} (m : result A) (k : A -> result B) (b : B) :
  bind m k = Ok b -> exists a, m = Ok a /\ k a = Ok b.
Proof. destruct m as [a|e]; simpl; [eauto | discriminate]. Qed.

Ltac inv_bind H :=
  let a := fresh "a" in
  let Ha := fresh "Ha" in
  apply bind_Ok_inv in H; destruct H as (a & Ha & H).

(** ** Comparisons *)

Lemma Qgtb_true (a b : Q) : Qgtb a b = true <-> b < a.
Proof.
  unfold Qgtb. rewrite negb_true_iff, <- not_true_iff_false, Qle_bool_iff.
  split; [apply Qnot_le_lt | apply Qlt_not_le].
Qed.

Lemma Qgtb_false (a b : Q) : Qgtb a b = false <-> a <= b.
Proof.
  unfold Qgtb. rewrite negb_false_iff. apply Qle_bool_iff.
Qed.

(** ** Index resolution and in-place updates *)

Lemma norm_index_nonneg (n : nat) (i : Z) :
  (0 <= i < Z.of_nat n)%Z -> norm_index n i = Ok (Z.to_nat i).
Proof.
  intros [H0 H1]. unfold norm_index.
  apply Z.leb_le in H0. apply Z.ltb_lt in H1. now rewrite H0, H1.
Qed.

Lemma norm_index_of_nat (n k : nat) :
  (k < n)%nat -> norm_index n (Z.of_nat k) = Ok k.
Proof.
  intros H. rewrite norm_index_nonneg by lia. now rewrite Nat2Z.id.
Qed.

Lemma norm_index_bound (n : nat) (i : Z) (k : nat) :
  norm_index n i = Ok k -> (k < n)%nat.
Proof.
  unfold norm_index.
  destruct ((0 <=? i) && (i <? Z.of_nat n))%Z eqn:E1.
  - apply andb_prop in E1 as [H0 H1]. apply Z.leb_le in H0. apply Z.ltb_lt in H1.
    intros [= <-]. lia.
  - destruct ((- Z.of_nat n <=? i) && (i <? 0))%Z eqn:E2; [|discriminate].
    apply andb_prop in E2 as [H0 H1]. apply Z.leb_le in H0. apply Z.ltb_lt in H1.
    intros [= <-]. lia.
Qed.

Section ListAlter.

Context {A : Type}.
Variable f : A -> result A.

Lemma list_alter_length (i : nat) (l l' : list A) :
  list_alter f i l = Ok l' -> length l' = length l.
Proof.
  revert i l'. induction l as [|a l IH]; intros [|i] l' H; simpl in H;
    try discriminate; inv_bind H; injection H as <-; simpl; auto.
  f_equal. eauto.
Qed.

Lemma list_alter_nth_error_ne (i j : nat) (l l' : list A) :
  i <> j -> list_alter f i l = Ok l' -> nth_error l' j = nth_error l j.
Proof.
  revert i j l'. induction l as [|a l IH]; intros [|i] [|j] l' Hne H;
    simpl in H; try discriminate; try congruence;
    inv_bind H; injection H as <-; simpl; eauto.
Qed.

Lemma list_alter_nth_error_eq (i : nat) (l l' : list A) :
  list_alter f i l = Ok l' ->
  exists a a', nth_error l i = Some a /\ f a = Ok a' /\ nth_error l' i = Some a'.
Proof.
  revert i l'. induction l as [|a l IH]; intros [|i] l' H; simpl in H;
    try discriminate; inv_bind H; injection H as <-; simpl; eauto.
Qed.

Lemma list_alter_Forall (P : A -> Prop) (i : nat) (l l' : list A) :
  (forall a a', P a -> f a = Ok a' -> P a') ->
  Forall P l -> list_alter f i l = Ok l' -> Forall P l'.
Proof.
  intros Hf. revert i l'.
  induction l as [|a l IH]; intros [|i] l' HP H; simpl in H;
    try discriminate; inv_bind H; injection H as <-;
    inversion HP; subst; constructor; eauto.
Qed.

Lemma list_alter_total (P : A -> Prop) (i : nat) (l : list A) :
  (forall a, P a -> exists a', f a = Ok a') ->
  Forall P l -> (i < length l)%nat -> exists l', list_alter f i l = Ok l'.
Proof.
  intros Hf. revert i.
  induction l as [|a l IH]; intros i HP Hi; simpl in Hi; [lia|].
  inversion HP; subst. destruct i as [|i]; simpl.
  - destruct (Hf a) as [a' ->]; simpl; eauto.
  - destruct (IH i) as [l' ->]; simpl; eauto. lia.
Qed.

Lemma list_alter_sum (g : A -> Q) (d : Q) (i : nat) (l l' : list A) :
  (forall a a', f a = Ok a' -> g a' == g a + d) ->
  list_alter f i l = Ok l' ->
  sum_list (map g l') == sum_list (map g l) + d.
Proof.
  intros Hf. revert i l'.
  induction l as [|a l IH]; intros [|i] l' H; simpl in H;
    try discriminate; inv_bind H; injection H as <-; simpl.
  - rewrite (Hf _ _ Ha). ring.
  - rewrite (IH _ _ Ha). ring.
Qed.

Lemma py_alter_length (i : Z) (l l' : list A) :
  py_alter f i l = Ok l' -> length l' = length l.
Proof. unfold py_alter. intros H. inv_bind H. eauto using list_alter_length. Qed.

Lemma py_alter_Forall (P : A -> Prop) (i : Z) (l l' : list A) :
  (forall a a', P a -> f a = Ok a' -> P a') ->
  Forall P l -> py_alter f i l = Ok l' -> Forall P l'.
Proof.
  unfold py_alter. intros Hf HP H. inv_bind H. eauto using list_alter_Forall.
Qed.

Lemma py_alter_total (P : A -> Prop) (i : Z) (l : list A) :
  (forall a, P a -> exists a', f a = Ok a') ->
  Forall P l -> (0 <= i < Z.of_nat (length l))%Z ->
  exists l', py_alter f i l = Ok l'.
Proof.
  intros Hf HP Hi. unfold py_alter. rewrite norm_index_nonneg by assumption.
  simpl. apply list_alter_total with (P := P); auto. lia.
Qed.

Lemma py_alter_sum (g : A -> Q) (d : Q) (i : Z) (l l' : list A) :
  (forall a a', f a = Ok a' -> g a' == g a + d) ->
  py_alter f i l = Ok l' ->
  sum_list (map g l') == sum_list (map g l) + d.
Proof.
  unfold py_alter. intros Hf H. inv_bind H. eauto using list_alter_sum.
Qed.

End ListAlter.

(** ** Shapes *)

Lemma Forall_repeat {A : Type} (P : A -> Prop) (a : A) (n : nat) :
  P a -> Forall P (repeat a n).
Proof. intros H. induction n; simpl; auto. Qed.

Lemma Forall_skipn {A : Type} (P : A -> Prop) (n : nat) (l : list A) :
  Forall P l -> Forall P (skipn n l).
Proof.
  revert l. induction n as [|n IH]; intros l H; simpl; auto.
  destruct l; auto. inversion H; auto.
Qed.

Lemma np_zeros2_shape (h w : nat) : shape2 h w (np_zeros2 h w).
Proof.
  split; [apply repeat_length|]. apply Forall_repeat, repeat_length.
Qed.

Lemma np_zeros3_shape (h w c : nat) : shape3 h w c (np_zeros3 h w c).
Proof.
  split; [apply repeat_length|]. apply Forall_repeat. split.
  - apply repeat_length.
  - apply Forall_repeat, repeat_length.
Qed.

Lemma alter2_shape (f : Q -> Q) (y x : Z) (h w : nat) (a a' : ndarray2) :
  shape2 h w a -> alter2 f y x a = Ok a' -> shape2 h w a'.
Proof.
  intros [Hh Hw] H. unfold alter2 in H. split.
  - rewrite <- Hh. eapply py_alter_length; eauto.
  - eapply py_alter_Forall; [| exact Hw | exact H].
    intros row row' Hrow Hr. simpl in Hr. rewrite <- Hrow.
    eapply py_alter_length; eauto.
Qed.

Lemma alter3_shape (f : Q -> Q) (y x ch : Z) (h w c : nat) (a a' : ndarray3) :
  shape3 h w c a -> alter3 f y x ch a = Ok a' -> shape3 h w c a'.
Proof.
  intros [Hh Hw] H. unfold alter3 in H. split.
  - rewrite <- Hh. eapply py_alter_length; eauto.
  - eapply py_alter_Forall; [| exact Hw | exact H].
    intros row row' [Hrow Hcells] Hr. simpl in Hr. split.
    + rewrite <- Hrow. eapply py_alter_length; eauto.
    + eapply py_alter_Forall; [| exact Hcells | exact Hr].
      intros cell cell' Hcell Hc. simpl in Hc. rewrite <- Hcell.
      eapply py_alter_length; eauto.
Qed.

Lemma alter2_total (f : Q -> Q) (y x : Z) (h w : nat) (a : ndarray2) :
  shape2 h w a -> (0 <= y < Z.of_nat h)%Z -> (0 <= x < Z.of_nat w)%Z ->
  exists a', alter2 f y x a = Ok a'.
Proof.
  intros [Hh Hw] Hy Hx. unfold alter2.
  eapply py_alter_total; [| exact Hw | now rewrite Hh].
  intros row Hrow. simpl.
  eapply py_alter_total with (P := fun _ => True);
    [eauto | apply Forall_forall; auto | now rewrite Hrow].
Qed.

Lemma alter3_total (f : Q -> Q) (y x ch : Z) (h w c : nat) (a : ndarray3) :
  shape3 h w c a ->
  (0 <= y < Z.of_nat h)%Z -> (0 <= x < Z.of_nat w)%Z -> (0 <= ch < Z.of_nat c)%Z ->
  exists a', alter3 f y x ch a = Ok a'.
Proof.
  intros [Hh Hw] Hy Hx Hc. unfold alter3.
  eapply py_alter_total; [| exact Hw | now rewrite Hh].
  intros row [Hrow Hcells]. simpl.
  eapply py_alter_total; [| exact Hcells | now rewrite Hrow].
  intros cell Hcell. simpl.
  eapply py_alter_total with (P := fun _ => True);
    [eauto | apply Forall_forall; auto | now rewrite Hcell].
Qed.

(** ** Channel sums *)

Lemma sum_list_app (l1 l2 : list Q) :
  sum_list (l1 ++ l2) == sum_list l1 + sum_list l2.
Proof.
  induction l1 as [|a l1 IH]; simpl; [ring|]. rewrite IH. ring.
Qed.

Lemma sum_list_zero {A : Type} (g : A -> Q) (l : list A) :
  Forall (fun a => g a == 0) l -> sum_list (map g l) == 0.
Proof.
  induction 1 as [|a l Ha _ IH]; simpl; [reflexivity|]. rewrite Ha, IH. ring.
Qed.

Lemma channel_sum_zeros (k h w c : nat) : channel_sum k (np_zeros3 h w c) == 0.
Proof.
  unfold channel_sum, np_zeros3. apply sum_list_zero, Forall_repeat.
  apply sum_list_zero, Forall_repeat.
  destruct (nth_in_or_default k (repeat 0 c) 0) as [Hin | ->]; [|reflexivity].
  apply repeat_spec in Hin. now rewrite Hin.
Qed.

Lemma norm_index_of_nat_inv (n k m : nat) :
  norm_index n (Z.of_nat k) = Ok m -> m = k.
Proof.
  unfold norm_index.
  destruct ((0 <=? Z.of_nat k) && (Z.of_nat k <? Z.of_nat n))%Z.
  - intros [= <-]. apply Nat2Z.id.
  - destruct ((- Z.of_nat n <=? Z.of_nat k) && (Z.of_nat k <? 0))%Z eqn:E;
      [|discriminate].
    apply andb_prop in E as [_ E]. apply Z.ltb_lt in E. lia.
Qed.

Lemma list_alter_add_nth (d : Q) (n k : nat) (l l' : list Q) :
  list_alter (fun q => Ok (q + d)) n l = Ok l' ->
  nth k l' 0 == nth k l 0 + (if Nat.eqb k n then d else 0).
Proof.
  revert n k l'. induction l as [|a l IH]; intros [|n] [|k] l' H; simpl in H;
    try discriminate.
  - injection H as <-. simpl. reflexivity.
  - injection H as <-. simpl. ring.
  - inv_bind H. injection H as <-. simpl. ring.
  - inv_bind H. injection H as <-. simpl. now apply IH.
Qed.

Lemma alter3_channel_sum (d : Q) (y x : Z) (ch k : nat) (a a' : ndarray3) :
  alter3 (fun q => q + d) y x (Z.of_nat ch) a = Ok a' ->
  channel_sum k a' == channel_sum k a + (if Nat.eqb k ch then d else 0).
Proof.
  unfold alter3, channel_sum.
  apply py_alter_sum with
    (g := fun row => sum_list (map (fun cell => nth k cell 0) row)).
  intros row row'. apply py_alter_sum with (g := fun cell => nth k cell 0).
  intros cell cell' H. unfold py_alter in H. inv_bind H.
  apply norm_index_of_nat_inv in Ha. subst.
  now apply list_alter_add_nth.
Qed.

Lemma alter3_count01 (y x : Z) (ch : nat) (a a' : ndarray3) :
  (ch < 2)%nat ->
  alter3 (fun q => q + 1) y x (Z.of_nat ch) a = Ok a' ->
  count01 a' == count01 a + 1.
Proof.
  intros Hch H. unfold count01.
  rewrite (alter3_channel_sum _ _ _ _ 0 _ _ H), (alter3_channel_sum _ _ _ _ 1 _ _ H).
  destruct ch as [|[|ch]]; simpl; [ring | ring | lia].
Qed.

Lemma map_imap {A B C : Type} (g : B -> C) (f : nat -> A -> B) (i : nat) (l : list A) :
  map g (imap f i l) = imap (fun j a => g (f j a)) i l.
Proof. revert i. induction l; intros i; simpl; f_equal; auto. Qed.

Lemma imap_ext_map {A B : Type} (f : nat -> A -> B) (g : A -> B) (i : nat) (l : list A) :
  (forall j a, f j a = g a) -> imap f i l = map g l.
Proof. intros H. revert i. induction l; intros i; simpl; f_equal; auto. Qed.

Lemma nth_replace_nth_ne {A : Type} (c k : nat) (v d : A) (l : list A) :
  k <> c -> nth k (replace_nth c v l) d = nth k l d.
Proof.
  revert c k. induction l as [|a l IH]; intros [|c] [|k] H; simpl; auto.
  congruence.
Qed.

Lemma set_channel_channel_sum (c k : nat) (m : ndarray2) (img : ndarray3) :
  k <> c -> channel_sum k (set_channel c m img) = channel_sum k img.
Proof.
  intros H. unfold channel_sum, set_channel. f_equal.
  rewrite map_imap. apply imap_ext_map. intros y row. f_equal.
  rewrite map_imap. apply imap_ext_map. intros x cell.
  now apply nth_replace_nth_ne.
Qed.

Lemma set_channel2_count01 (m : ndarray2) (img : ndarray3) :
  count01 (set_channel 2 m img) = count01 img.
Proof.
  unfold count01. now rewrite !set_channel_channel_sum by lia.
Qed.

(** ** ConcatenateEvents: accounting of events *)

Lemma of_nat_S (n : nat) : of_nat (S n) == of_nat n + 1.
Proof. unfold of_nat. rewrite Nat2Z.inj_succ, <- Z.add_1_r, inject_Z_plus. reflexivity. Qed.

Lemma of_nat_add (a b : nat) : of_nat (a + b) == of_nat a + of_nat b.
Proof. unfold of_nat. now rewrite Nat2Z.inj_add, inject_Z_plus. Qed.

Lemma of_nat_nonneg (n : nat) : 0 <= of_nat n.
Proof.
  unfold of_nat. change 0 with (inject_Z 0). rewrite <- Zle_Qle. lia.
Qed.

Lemma of_nat_le (a b : nat) : (a <= b)%nat -> of_nat a <= of_nat b.
Proof. intros H. unfold of_nat. rewrite <- Zle_Qle. lia. Qed.

(** One scan of the inner loop: it succeeds on in-bounds events, moves the
    cursor forward by [n] events, and a frame it appends counts all of them
    but the boundary event. *)
Lemma ConcatenateEvents_scan_count (junk : nat -> nat -> Q) (ts step : Q)
  (h w : nat) (evs : list event) :
  forall (it : nat) (img : ndarray3) (cm tm : ndarray2),
    Forall (in_bounds h w) evs ->
    shape3 h w 3 img -> shape2 h w cm -> shape2 h w tm ->
    exists (n : nat) (emitted : option ndarray3),
      ConcatenateEvents_scan junk ts step h w evs it img cm tm
      = Ok ((it + n)%nat, emitted) /\
      (n <= length evs)%nat /\
      match emitted with
      | Some f => count01 f + 1 == count01 img + of_nat n
      | None => True
      end.
Proof.
  induction evs as [|e evs IH]; intros it img cm tm Hb Himg Hcm Htm.
  - exists O, None. simpl. rewrite Nat.add_0_r. auto.
  - inversion Hb as [|? ? [Hx Hy] Hb']; subst.
    cbn [ConcatenateEvents_scan].
    destruct (Qgtb (ev_ts e) ts).
    + exists 1%nat. eexists. rewrite Nat.add_1_r. split; [reflexivity|].
      split; [simpl; lia|]. rewrite !set_channel2_count01. reflexivity.
    + assert (Himg' : exists img',
                 (if Qgtb (ev_pol e) 0
                  then alter3 (fun q => q + 1) (py_int (ev_y e)) (py_int (ev_x e)) 0 img
                  else alter3 (fun q => q + 1) (py_int (ev_y e)) (py_int (ev_x e)) 1 img)
                 = Ok img' /\ shape3 h w 3 img' /\ count01 img' == count01 img + 1).
      { destruct (Qgtb (ev_pol e) 0).
        - destruct (alter3_total (fun q => q + 1) (py_int (ev_y e))
                      (py_int (ev_x e)) 0 h w 3 img) as [img' E]; auto; try lia.
          exists img'. split; [exact E|]. split; [eapply alter3_shape; eauto|].
          apply (alter3_count01 _ _ 0%nat _ _ ltac:(lia) E).
        - destruct (alter3_total (fun q => q + 1) (py_int (ev_y e))
                      (py_int (ev_x e)) 1 h w 3 img) as [img' E]; auto; try lia.
          exists img'. split; [exact E|]. split; [eapply alter3_shape; eauto|].
          apply (alter3_count01 _ _ 1%nat _ _ ltac:(lia) E). }
      destruct Himg' as (img' & -> & Hs' & Hc'). cbn [bind].
      destruct (alter2_total (fun q => q + 1) (py_int (ev_y e)) (py_int (ev_x e))
                  h w cm) as [cm' Ecm]; auto.
      rewrite Ecm. cbn [bind].
      destruct (alter2_total
                  (fun q => Qabs (ts - ev_ts e - step) / step + q)
                  (py_int (ev_y e)) (py_int (ev_x e)) h w tm) as [tm' Etm]; auto.
      rewrite Etm. cbn [bind].
      destruct (IH (S it) img' cm' tm') as (n & emitted & E & Hn & Hc);
        eauto using alter2_shape.
      exists (S n), emitted. rewrite Nat.add_succ_r. split; [exact E|].
      split; [simpl; lia|].
      destruct emitted as [f|]; [|exact I].
      rewrite Hc, Hc', of_nat_S. ring.
Qed.

(** The outer loop keeps: every appended frame accounts for the events it
    counts plus one boundary event, all of them before the cursor. *)
Lemma ConcatenateEvents_loop_count (junk : nat -> nat -> nat -> Q)
  (events : list event) (step : Q) (h w : nat) (grid : list Q) :
  events <> [] -> Forall (in_bounds h w) events ->
  forall (it : nat) (frames : list ndarray3),
    (it <= length events)%nat ->
    frames_count01 frames + of_nat (length frames) <= of_nat it ->
    exists (it' : nat) (frames' : list ndarray3),
      ConcatenateEvents_loop junk events step h w grid it frames = Ok (it', frames') /\
      (it' <= length events)%nat /\
      frames_count01 frames' + of_nat (length frames') <= of_nat it'.
Proof.
  intros Hne Hb. induction grid as [|ts grid IH]; intros it frames Hit Hacc.
  - exists it, frames. simpl. auto.
  - simpl. destruct events as [|e0 events0] eqn:Eev; [congruence|].
    rewrite <- Eev in *. replace (print_progress it (length events)) with (Ok tt)
      by (rewrite Eev; reflexivity).
    simpl.
    destruct (ConcatenateEvents_scan_count (junk (length frames)) ts step h w
                (skipn it events) it (np_zeros3 h w 3) (np_zeros2 h w) (np_zeros2 h w))
      as (n & emitted & E & Hn & Hc);
      auto using Forall_skipn, np_zeros3_shape, np_zeros2_shape.
    rewrite E. simpl. rewrite length_skipn in Hn.
    apply IH; [lia|].
    destruct emitted as [f|].
    + unfold frames_count01 in *. rewrite map_app, sum_list_app, length_app.
      simpl. rewrite !of_nat_add.
      assert (H0 : count01 (np_zeros3 h w 3) == 0).
      { unfold count01. rewrite !channel_sum_zeros. ring. }
      rewrite H0 in Hc. change (of_nat 1) with 1. lra.
    + rewrite of_nat_add. pose proof (of_nat_nonneg n). lra.
Qed.

Lemma last_gap_total (grid : list Q) :
  (2 <= length grid)%nat -> exists step, last_gap grid = Ok step.
Proof.
  intros H. unfold last_gap. rewrite <- length_rev in H.
  destruct (rev grid) as [|a [|b l]]; simpl in H; try lia. eauto.
Qed.

(** C1, as the specification states it, does not hold: one event before the
    first grid timestamp is read, no frame is appended for it and it is not
    in the returned tail. *)
Lemma ConcatenateEvents_conservation_refuted :
  sorted_by_ts [ev 0 0 1 1] = true /\
  Forall (in_bounds 2 2) [ev 0 0 1 1] /\
  ConcatenateEvents zero_junk [ev 0 0 1 1] [5; 6] 2 2 = Ok ([], []) /\
  ~ frames_count01 [] + of_nat (length (@nil event))
    == of_nat (length [ev 0 0 1 1]).
Proof.
  split; [reflexivity|]. split.
  - repeat first [apply Forall_nil | apply Forall_cons]; cbv; intuition discriminate.
  - split; [reflexivity|]. vm_compute. discriminate.
Qed.

(** C1 (amended): for a non-empty event list with in-bounds pixels and a grid
    of at least two entries, [ConcatenateEvents] returns, and the channel-0
    plus channel-1 entries of all returned frames plus the number of events
    of the returned tail is at most the number of input events. *)
Theorem ConcatenateEvents_conservation_bound (junk : nat -> nat -> nat -> Q)
  (events : list event) (grid : list Q) (h w : nat) :
  events <> [] -> Forall (in_bounds h w) events -> (2 <= length grid)%nat ->
  exists (frames : list ndarray3) (tail : list event),
    ConcatenateEvents junk events grid h w = Ok (frames, tail) /\
    frames_count01 frames + of_nat (length tail) <= of_nat (length events).
Proof.
  intros Hne Hb Hg. unfold ConcatenateEvents.
  destruct (last_gap_total grid Hg) as [step ->]. cbn [bind].
  destruct (ConcatenateEvents_loop_count junk events step h w grid Hne Hb O [])
    as (it & frames & E & Hit & Hc).
  - lia.
  - vm_compute. discriminate.
  - rewrite E. cbn [bind fst snd]. exists frames, (skipn it events).
    split; [reflexivity|]. rewrite length_skipn.
    replace (length events) with (it + (length events - it))%nat at 2 by lia.
    rewrite of_nat_add. pose proof (of_nat_nonneg (length frames)). lra.
Qed.

Lemma ConcatenateEvents_conservation_bound_witness :
  exists (frames : list ndarray3) (tail : list event),
    ConcatenateEvents zero_junk [ev 0 0 1 1; ev 1 1 3 0; ev 0 0 4 1] [2; 3.5] 2 2
    = Ok (frames, tail) /\
    frames_count01 frames + of_nat (length tail) <= of_nat 3.
Proof.
  apply (ConcatenateEvents_conservation_bound zero_junk
           [ev 0 0 1 1; ev 1 1 3 0; ev 0 0 4 1] [2; 3.5] 2 2).
  - discriminate.
  - repeat first [apply Forall_nil | apply Forall_cons]; cbv; intuition discriminate.
  - simpl; lia.
Defined.

(** ** ConcatenateEvents: the boundary event *)

(** Where a scan of [ConcatenateEvents] ends: behind the boundary event when
    it appends a frame, at the end of the stream otherwise. *)
Lemma ConcatenateEvents_scan_cursor (junk : nat -> nat -> Q) (ts step : Q)
  (h w : nat) (evs : list event) :
  forall (it : nat) (img : ndarray3) (cm tm : ndarray2) (it' : nat)
         (emitted : option ndarray3),
    ConcatenateEvents_scan junk ts step h w evs it img cm tm = Ok (it', emitted) ->
    match emitted with
    | Some _ =>
        from_boundary ts evs = Some (skipn (length (consumed ts evs)) evs) /\
        it' = (it + S (length (consumed ts evs)))%nat
    | None => from_boundary ts evs = None /\ it' = (it + length evs)%nat
    end.
Proof.
  induction evs as [|e evs IH]; intros it img cm tm it' emitted H.
  - injection H as <- <-. simpl. auto.
  - cbn [ConcatenateEvents_scan] in H. cbn [from_boundary consumed].
    destruct (Qgtb (ev_ts e) ts).
    + injection H as <- <-. simpl. split; [reflexivity | lia].
    + do 3 inv_bind H. apply IH in H. cbn [length skipn].
      destruct emitted; destruct H as [H1 H2]; split; auto; lia.
Qed.

(** C2 on a concrete stream: the boundary event of the first grid step
    (timestamp 3) is in no frame although it does not exceed the second grid
    timestamp 3.5, and the boundary event of the second step (timestamp 4) is
    not in the returned tail, which is empty. *)
Lemma ConcatenateEvents_skips_boundary_event (junk : nat -> nat -> nat -> Q) :
  exists f1 f2 : ndarray3,
    ConcatenateEvents junk [ev 0 0 1 1; ev 1 1 3 0; ev 0 0 4 1] [2; 3.5] 2 2
    = Ok ([f1; f2], []) /\
    count01 f1 == 1 /\ count01 f2 == 0.
Proof.
  do 2 eexists. split; [reflexivity|]. split; vm_compute; reflexivity.
Qed.

(** ** ConcatenateEvents: the normalised-timestamp channel *)

(** Where the counter is zero the result of the masked division is the
    content of the fresh buffer. *)
Lemma np_divide_where_nonzero_masked (junk : nat -> nat -> Q) (a b : ndarray2)
  (y x : nat) (q : Q) :
  get2 b y x = Some q -> q == 0 ->
  get2 (np_divide_where_nonzero junk a b) y x = Some (junk y x).
Proof.
  unfold get2, np_divide_where_nonzero. intros H Hq.
  assert (Himap : forall (A B : Type) (f : nat -> A -> B) (l : list A) (i k : nat),
             nth_error (imap f i l) k = option_map (f (i + k)%nat) (nth_error l k)).
  { intros A B f l. induction l as [|c l IH]; intros i [|k]; simpl; auto.
    - now rewrite Nat.add_0_r.
    - rewrite IH. now rewrite Nat.add_succ_r. }
  rewrite Himap. destruct (nth_error b y) as [row|]; [|discriminate]. simpl.
  rewrite Himap, H. simpl.
  apply Qeq_bool_iff in Hq. now rewrite Hq.
Qed.

(** C3 on a concrete stream: with a fresh buffer that holds 7, the emitted
    frame has 7 in channel 2 at pixel (1, 1), where no event fell. *)
Lemma ConcatenateEvents_channel2_not_zeroed :
  exists f : ndarray3,
    ConcatenateEvents (fun _ _ _ => 7) [ev 0 0 1 1; ev 0 0 5 1] [2; 3] 2 2
    = Ok ([f], []) /\
    get3 f 1 1 0 = Some 0 /\ get3 f 1 1 1 = Some 0 /\ get3 f 1 1 2 = Some 7.
Proof. eexists. split; [reflexivity|]. repeat split. Qed.

(** ** Empty inputs *)

(** C4 on a concrete input: [EventBinning] on an empty event list and a
    non-empty grid raises instead of returning one zero frame per grid
    entry. *)
Lemma EventBinning_empty_events_raises (ts : Q) (grid : list Q) (h w n_bin : nat)
  (bin_step_size : Q) :
  EventBinning [] (ts :: grid) h w n_bin bin_step_size = Raise ZeroDivisionError.
Proof. reflexivity. Qed.

Lemma EventBinning_empty_grid (events : list event) (h w n_bin : nat)
  (bin_step_size : Q) :
  EventBinning events [] h w n_bin bin_step_size = Ok [].
Proof. reflexivity. Qed.

Lemma generateFrames_empty_grid (events : list event) (h w c : nat)
  (time_window : option Q) :
  generateFrames events [] h w c time_window = Ok ([], events).
Proof. reflexivity. Qed.

Lemma generateFrames_temporalROI_empty_grid (events : list event) (h w c : nat) :
  generateFrames_temporalROI events [] h w c = Ok ([], events).
Proof. reflexivity. Qed.

Lemma ConcatenateEvents_short_grid (junk : nat -> nat -> nat -> Q)
  (events : list event) (grid : list Q) (h w : nat) :
  (length grid < 2)%nat ->
  ConcatenateEvents junk events grid h w = Raise IndexError.
Proof.
  intros H. destruct grid as [|a [|b grid]]; simpl in H; try lia; reflexivity.
Qed.

(** ** EventBinning: the trailing boundary *)

(** C8 on a concrete stream: with [n_bin = 2] and [bin_step_size = 1] the
    event stamped 3, exactly [n_bin * bin_step_size] before the grid
    timestamp 5, is not skipped by the trailing cursor; it is binned with
    channel index 2 and the call raises. *)
Lemma EventBinning_boundary_event_raises :
  sorted_by_ts [ev 0 0 3 1; ev 0 0 10 1] = true /\
  floor_div_index (5 - 3) 1 = Ok 2%Z /\
  EventBinning [ev 0 0 3 1; ev 0 0 10 1] [5] 1 1 2 1 = Raise IndexError.
Proof. repeat split. Qed.

(** With a later event inside the window the same boundary event is
    skipped: only the event stamped 4 is binned, in channel 1. *)
Lemma EventBinning_boundary_event_skipped :
  EventBinning [ev 0 0 3 1; ev 0 0 4 1; ev 0 0 10 1] [5] 1 1 2 1
  = Ok [[[[0; 1]]]].
Proof. reflexivity. Qed.

(** ** Reading an array after an update *)

Lemma norm_index_nonneg_inv (n : nat) (i : Z) (k : nat) :
  (0 <= i)%Z -> norm_index n i = Ok k -> k = Z.to_nat i.
Proof.
  intros Hi. unfold norm_index.
  destruct ((0 <=? i) && (i <? Z.of_nat n))%Z; [now intros [= <-]|].
  destruct ((- Z.of_nat n <=? i) && (i <? 0))%Z eqn:E; [|discriminate].
  apply andb_prop in E as [_ E]. apply Z.ltb_lt in E. lia.
Qed.

Lemma py_alter_lookup {A : Type} (f : A -> result A) (i : Z) (l l' : list A) :
  (0 <= i)%Z -> py_alter f i l = Ok l' ->
  exists a a',
    nth_error l (Z.to_nat i) = Some a /\ f a = Ok a' /\
    forall j, nth_error l' j
              = if (Z.of_nat j =? i)%Z then Some a' else nth_error l j.
Proof.
  intros Hi H. unfold py_alter in H. inv_bind H.
  apply norm_index_nonneg_inv in Ha; [|assumption]. subst a.
  destruct (list_alter_nth_error_eq f _ _ _ H) as (a & a' & Hl & Hf & Hl').
  exists a, a'. split; [assumption|]. split; [assumption|].
  intros j. destruct (Z.of_nat j =? i)%Z eqn:E.
  - apply Z.eqb_eq in E. subst i. now rewrite Nat2Z.id in Hl'.
  - apply Z.eqb_neq in E. eapply list_alter_nth_error_ne; [|exact H]. lia.
Qed.

Lemma alter3_get3 (f : Q -> Q) (y x ch : Z) (a a' : ndarray3) :
  (0 <= y)%Z -> (0 <= x)%Z -> (0 <= ch)%Z ->
  alter3 f y x ch a = Ok a' ->
  forall y' x' ch',
    get3 a' y' x' ch'
    = if ((Z.of_nat y' =? y) && (Z.of_nat x' =? x) && (Z.of_nat ch' =? ch))%Z
      then option_map f (get3 a y' x' ch')
      else get3 a y' x' ch'.
Proof.
  intros Hy Hx Hch H y' x' ch'. unfold alter3 in H.
  destruct (py_alter_lookup _ _ _ _ Hy H) as (row & row' & Hrow & Frow & Ha').
  destruct (py_alter_lookup _ _ _ _ Hx Frow) as (cell & cell' & Hcell & Fcell & Hrow').
  destruct (py_alter_lookup _ _ _ _ Hch Fcell) as (q & q' & Hq & Fq & Hcell').
  injection Fq as <-.
  unfold get3. rewrite Ha'.
  destruct (Z.of_nat y' =? y)%Z eqn:Ey; simpl; [|reflexivity].
  apply Z.eqb_eq in Ey. subst y. rewrite Nat2Z.id in Hrow. rewrite Hrow, Hrow'.
  destruct (Z.of_nat x' =? x)%Z eqn:Ex; simpl; [|reflexivity].
  apply Z.eqb_eq in Ex. subst x. rewrite Nat2Z.id in Hcell. rewrite Hcell, Hcell'.
  destruct (Z.of_nat ch' =? ch)%Z eqn:Ec; simpl; [|reflexivity].
  apply Z.eqb_eq in Ec. subst ch. rewrite Nat2Z.id in Hq. now rewrite Hq.
Qed.

Lemma inject_Z_succ (z : Z) : inject_Z z + 1 = inject_Z (z + 1).
Proof. unfold Qplus, inject_Z. simpl. f_equal. lia. Qed.

Lemma inject_Z_pred (z : Z) : inject_Z z - 1 = inject_Z (z - 1).
Proof. unfold Qminus, Qplus, Qopp, inject_Z. simpl. f_equal. lia. Qed.

(** ** generateFrames: the value of every pixel *)

Lemma signed_count_cons (e : event) (evs : list event) (y x : nat) :
  signed_count (e :: evs) y x = (signed_unit e y x + signed_count evs y x)%Z.
Proof.
  unfold signed_count, signed_unit. simpl.
  destruct (at_pixel y x e), (Qgtb (ev_pol e) 0); simpl length; lia.
Qed.

Lemma np_zeros3_holds (h w c : nat) :
  (0 < c)%nat -> holds h w (np_zeros3 h w c) (fun _ _ => 0%Z).
Proof.
  intros Hc y x Hy Hx. unfold get3, np_zeros3.
  rewrite nth_error_repeat by assumption. rewrite nth_error_repeat by assumption.
  now rewrite nth_error_repeat by assumption.
Qed.

(** Accumulating one in-bounds event. *)
Lemma accumulate_holds (h w c : nat) (e : event) (img : ndarray3)
  (v : nat -> nat -> Z) :
  (0 < c)%nat -> in_bounds h w e -> shape3 h w c img -> holds h w img v ->
  exists img',
    (if Qgtb (ev_pol e) 0
     then alter3 (fun q => q + 1) (py_int (ev_y e)) (py_int (ev_x e)) 0 img
     else alter3 (fun q => q - 1) (py_int (ev_y e)) (py_int (ev_x e)) 0 img)
    = Ok img' /\
    shape3 h w c img' /\
    holds h w img' (fun y x => (v y x + signed_unit e y x)%Z).
Proof.
  intros Hc [Hx Hy] Hs Hv.
  assert (Hstep : forall g d,
             (forall z, g (inject_Z z) = inject_Z (z + d)) ->
             (if Qgtb (ev_pol e) 0 then d = 1%Z else d = (-1)%Z) ->
             forall img',
               alter3 g (py_int (ev_y e)) (py_int (ev_x e)) 0 img = Ok img' ->
               holds h w img' (fun y x => (v y x + signed_unit e y x)%Z)).
  { intros g d Hg Hd img' E y x Hy' Hx'.
    rewrite (alter3_get3 _ _ _ _ _ _ (proj1 Hy) (proj1 Hx) (Z.le_refl 0) E).
    rewrite (Hv y x Hy' Hx'). unfold signed_unit, at_pixel.
    rewrite (Z.eqb_sym (py_int (ev_y e))), (Z.eqb_sym (py_int (ev_x e))).
    change (Z.of_nat 0 =? 0)%Z with true. rewrite andb_true_r.
    destruct ((Z.of_nat y =? py_int (ev_y e)) && (Z.of_nat x =? py_int (ev_x e)))%Z.
    - simpl. rewrite Hg. destruct (Qgtb (ev_pol e) 0); now subst d.
    - now rewrite Z.add_0_r. }
  destruct (Qgtb (ev_pol e) 0) eqn:Ep.
  - destruct (alter3_total (fun q => q + 1) (py_int (ev_y e)) (py_int (ev_x e)) 0
                h w c img) as [img' E]; auto; try lia.
    exists img'. split; [exact E|]. split; [eapply alter3_shape; eauto|].
    apply (Hstep (fun q => q + 1) 1%Z); auto. intros z. apply inject_Z_succ.
  - destruct (alter3_total (fun q => q - 1) (py_int (ev_y e)) (py_int (ev_x e)) 0
                h w c img) as [img' E]; auto; try lia.
    exists img'. split; [exact E|]. split; [eapply alter3_shape; eauto|].
    apply (Hstep (fun q => q - 1) (-1)%Z); auto. intros z. apply inject_Z_pred.
Qed.

Lemma Zeqb_of_nat (a b : nat) : (Z.of_nat a =? Z.of_nat b)%Z = Nat.eqb a b.
Proof.
  destruct (Nat.eqb_spec a b) as [->|H]; [apply Z.eqb_refl|].
  apply Z.eqb_neq. lia.
Qed.

(** Writing 0 at the fixed pixel (201, 154) before a frame is appended. *)
Lemma blank_pixel_holds (h w c : nat) (img : ndarray3) (v : nat -> nat -> Z) :
  (201 < h)%nat -> (154 < w)%nat -> (0 < c)%nat ->
  shape3 h w c img -> holds h w img v ->
  exists f,
    alter3 (fun _ => 0) 201 154 0 img = Ok f /\
    forall y x, (y < h)%nat -> (x < w)%nat ->
                get3 f y x 0
                = Some (if Nat.eqb y 201 && Nat.eqb x 154 then 0
                        else inject_Z (v y x)).
Proof.
  intros Hh Hw Hc Hs Hv.
  destruct (alter3_total (fun _ => 0) 201 154 0 h w c img) as [f E];
    auto; try lia.
  exists f. split; [exact E|]. intros y x Hy Hx.
  rewrite (alter3_get3 (fun _ => 0) 201 154 0 img f
             ltac:(lia) ltac:(lia) ltac:(lia) E).
  rewrite (Hv y x Hy Hx).
  change 201%Z with (Z.of_nat 201). change 154%Z with (Z.of_nat 154).
  rewrite !Zeqb_of_nat. change (Z.of_nat 0 =? 0)%Z with true.
  rewrite andb_true_r. now destruct (Nat.eqb y 201 && Nat.eqb x 154).
Qed.

(** One scan of the inner loop of [generateFrames] without [time_window]. *)
Lemma generateFrames_scan_frame (ts : Q) (h w c : nat) (evs : list event) :
  (201 < h)%nat -> (154 < w)%nat -> (0 < c)%nat ->
  forall (it : nat) (img : ndarray3) (v : nat -> nat -> Z),
    Forall (in_bounds h w) evs -> shape3 h w c img -> holds h w img v ->
    match from_boundary ts evs with
    | Some rest =>
        rest = skipn (length (consumed ts evs)) evs /\
        exists f,
          generateFrames_scan ts None evs it img
          = Ok ((it + S (length (consumed ts evs)))%nat, Some f) /\
          forall y x, (y < h)%nat -> (x < w)%nat ->
                      get3 f y x 0
                      = Some (if Nat.eqb y 201 && Nat.eqb x 154 then 0
                              else inject_Z (v y x + signed_count (consumed ts evs) y x))
    | None =>
        generateFrames_scan ts None evs it img = Ok ((it + length evs)%nat, None)
    end.
Proof.
  intros Hh Hw Hc.
  induction evs as [|e evs IH]; intros it img v Hb Hs Hv.
  - simpl. now rewrite Nat.add_0_r.
  - inversion Hb as [|? ? He Hb']; subst.
    cbn [generateFrames_scan from_boundary consumed].
    destruct (Qgtb (ev_ts e) ts).
    + split; [reflexivity|].
      destruct (blank_pixel_holds h w c img v Hh Hw Hc Hs Hv) as (f & -> & Hf).
      exists f. cbn [bind length]. rewrite Nat.add_1_r. split; [reflexivity|].
      intros y x Hy Hx. rewrite (Hf y x Hy Hx).
      unfold signed_count. simpl. now rewrite Z.add_0_r.
    + destruct (accumulate_holds h w c e img v Hc He Hs Hv) as (img' & -> & Hs' & Hv').
      cbn [bind]. specialize (IH (S it) img' _ Hb' Hs' Hv').
      destruct (from_boundary ts evs) as [rest|].
      * destruct IH as (Hrest & f & E & Hf). split; [exact Hrest|].
        exists f. split.
        -- rewrite E. cbn [length]. do 2 f_equal. lia.
        -- intros y x Hy Hx. rewrite (Hf y x Hy Hx).
           rewrite signed_count_cons. now rewrite Z.add_assoc.
      * rewrite IH. cbn [length]. do 2 f_equal. lia.
Qed.

Lemma tl_skipn {A : Type} (k : nat) (l : list A) : tl (skipn k l) = skipn (S k) l.
Proof.
  revert l. induction k as [|k IH]; intros [|a l]; simpl; auto.
Qed.

(** Once the cursor is at the end of the stream no grid entry appends a
    frame. *)
Lemma generateFrames_loop_exhausted (events : list event) (h w c : nat)
  (time_window : option Q) (it : nat) :
  skipn it events = [] ->
  forall (grid : list Q) (acc : list ndarray3),
    generateFrames_loop events h w c time_window grid it acc = Ok (it, acc).
Proof.
  intros H. induction grid as [|ts grid IH]; intros acc; simpl; [reflexivity|].
  rewrite H. simpl. apply IH.
Qed.

Lemma generateFrames_empty_events (grid : list Q) (h w c : nat)
  (time_window : option Q) :
  generateFrames [] grid h w c time_window = Ok ([], []).
Proof.
  unfold generateFrames.
  now rewrite (generateFrames_loop_exhausted [] h w c time_window O eq_refl).
Qed.

Lemma generateFrames_loop_frames (events : list event) (h w c : nat)
  (grid : list Q) :
  (201 < h)%nat -> (154 < w)%nat -> (0 < c)%nat ->
  Forall (in_bounds h w) events ->
  forall (it : nat) (acc : list ndarray3),
    exists (it' : nat) (new : list ndarray3),
      generateFrames_loop events h w c None grid it acc = Ok (it', acc ++ new) /\
      Forall2 (frame_of h w) new (timesteps grid (skipn it events)).
Proof.
  intros Hh Hw Hc Hb. induction grid as [|ts grid IH]; intros it acc.
  - exists it, []. simpl. rewrite app_nil_r. auto.
  - cbn [generateFrames_loop timesteps].
    pose proof (generateFrames_scan_frame ts h w c (skipn it events) Hh Hw Hc it
                  (np_zeros3 h w c) (fun _ _ => 0%Z)
                  (Forall_skipn _ _ _ Hb) (np_zeros3_shape h w c)
                  (np_zeros3_holds h w c Hc)) as Hscan.
    destruct (from_boundary ts (skipn it events)) as [rest|].
    + destruct Hscan as (Hrest & f & E & Hf). rewrite E. cbn [bind fst snd].
      destruct (IH (it + S (length (consumed ts (skipn it events))))%nat
                  (acc ++ [f])) as (it' & new & Eloop & Hnew).
      exists it', (f :: new). split.
      * rewrite Eloop. now rewrite <- app_assoc.
      * constructor; [exact Hf|].
        rewrite Hrest, tl_skipn, skipn_skipn.
        replace (S (length (consumed ts (skipn it events))) + it)%nat
          with (it + S (length (consumed ts (skipn it events))))%nat by lia.
        exact Hnew.
    + rewrite Hscan. cbn [bind fst snd].
      rewrite generateFrames_loop_exhausted.
      * exists (it + length (skipn it events))%nat, []. rewrite app_nil_r. auto.
      * apply skipn_all2. rewrite length_skipn. lia.
Qed.

(** C6, as the specification states it, does not hold: one positive event at
    pixel (201, 154) is consumed for the grid timestamp 2, yet the frame has
    0 there. *)
Lemma generateFrames_pixel_value_refuted :
  match generateFrames [ev 154 201 1 1; ev 0 0 5 1] [2] 260 346 1 None with
  | Ok ([f], []) =>
      get3 f 201 154 0 = Some 0 /\
      get3 f 201 154 0
      <> Some (inject_Z (signed_count (consumed 2 [ev 154 201 1 1; ev 0 0 5 1])
                                      201 154))
  | _ => False
  end.
Proof. vm_compute. split; [reflexivity | discriminate]. Qed.

(** *** Sorted streams *)

Lemma sorted_by_ts_tail (a : event) (l : list event) :
  sorted_by_ts (a :: l) = true -> sorted_by_ts l = true.
Proof.
  destruct l as [|b l]; [reflexivity|]. cbn [sorted_by_ts].
  intros H. apply andb_prop in H. exact (proj2 H).
Qed.

Lemma sorted_by_ts_head (a : event) (l : list event) :
  sorted_by_ts (a :: l) = true -> Forall (fun e => ev_ts a <= ev_ts e) l.
Proof.
  revert a. induction l as [|b l IH]; intros a H; [constructor|].
  cbn [sorted_by_ts] in H. apply andb_prop in H. destruct H as [Hab Hl].
  apply Qle_bool_iff in Hab. constructor; [exact Hab|].
  eapply Forall_impl; [|exact (IH b Hl)].
  intros e He. cbv beta in He. lra.
Qed.

Lemma sorted_by_ts_app_r (l1 l2 : list event) :
  sorted_by_ts (l1 ++ l2) = true -> sorted_by_ts l2 = true.
Proof.
  induction l1 as [|a l1 IH]; intros H; [exact H|].
  apply IH. exact (sorted_by_ts_tail a (l1 ++ l2) H).
Qed.

Lemma sorted_by_ts_app_le (l1 l2 : list event) (d e : event) :
  sorted_by_ts (l1 ++ l2) = true -> In d l1 -> In e l2 -> ev_ts d <= ev_ts e.
Proof.
  induction l1 as [|a l1 IH]; intros H Hd He; [destruct Hd|].
  destruct Hd as [->|Hd].
  - pose proof (sorted_by_ts_head d (l1 ++ l2) H) as Hall.
    rewrite Forall_forall in Hall. apply Hall, in_or_app. now right.
  - apply IH; auto. exact (sorted_by_ts_tail a (l1 ++ l2) H).
Qed.

(** *** The timesteps of the code and of the specification *)

Lemma consumed_unconsumed (ts : Q) (evs : list event) :
  consumed ts evs ++ unconsumed ts evs = evs.
Proof.
  induction evs as [|e evs IH]; [reflexivity|]. cbn [consumed unconsumed].
  destruct (Qgtb (ev_ts e) ts); [reflexivity|]. cbn [app]. now rewrite IH.
Qed.

Lemma from_boundary_unconsumed (ts : Q) (evs rest : list event) :
  from_boundary ts evs = Some rest ->
  unconsumed ts evs = rest /\
  exists (b : event) (rest' : list event),
    rest = b :: rest' /\ Qgtb (ev_ts b) ts = true.
Proof.
  induction evs as [|e evs IH]; cbn [from_boundary unconsumed]; [discriminate|].
  destruct (Qgtb (ev_ts e) ts) eqn:E; [|exact IH].
  intros [= <-]. split; [reflexivity|]. now exists e, evs.
Qed.

(** Scanning a stream that starts with the events [D]: either all of [D] is
    consumed and the scan goes on in [E], or it stops inside [D]. *)
Lemma consumed_app (ts : Q) (D E : list event) :
  (consumed ts (D ++ E) = D ++ consumed ts E /\
   unconsumed ts (D ++ E) = unconsumed ts E)
  \/ (consumed ts (D ++ E) = consumed ts D /\
      unconsumed ts (D ++ E) = unconsumed ts D ++ E /\
      exists d, In d D /\ ts < ev_ts d).
Proof.
  induction D as [|d D IH]; [now left|].
  cbn [app consumed unconsumed]. destruct (Qgtb (ev_ts d) ts) eqn:Ed.
  - right. split; [reflexivity|]. split; [reflexivity|].
    exists d. split; [now left | now apply Qgtb_true].
  - destruct IH as [[H1 H2] | (H1 & H2 & d' & Hin & Hd')].
    + left. now rewrite H1, H2.
    + right. rewrite H1, H2. split; [reflexivity|]. split; [reflexivity|].
      exists d'. split; [now right | exact Hd'].
Qed.

Lemma clean_pixel_consumed (y x : nat) (ts : Q) (evs : list event) :
  clean_pixel y x evs ->
  clean_pixel y x (consumed ts evs) /\ clean_pixel y x (unconsumed ts evs).
Proof.
  unfold clean_pixel. intros H.
  rewrite <- (consumed_unconsumed ts evs) in H. now apply Forall_app in H.
Qed.

Lemma signed_count_app (l1 l2 : list event) (y x : nat) :
  signed_count (l1 ++ l2) y x = (signed_count l1 y x + signed_count l2 y x)%Z.
Proof.
  induction l1 as [|e l1 IH]; [reflexivity|].
  cbn [app]. rewrite !signed_count_cons, IH. lia.
Qed.

Lemma signed_count_clean (l : list event) (y x : nat) :
  clean_pixel y x l -> signed_count l y x = 0%Z.
Proof.
  induction 1 as [|e l He _ IH]; [reflexivity|].
  rewrite signed_count_cons, IH. unfold signed_unit. now rewrite He.
Qed.

(** On a sorted stream the [k]-th frame of the code and the [k]-th timestep
    of the specification count the same events, up to events at which an
    earlier frame was appended: the stream of the specification is the stream
    of the code with some of those events, [D], still in front of it. *)
Lemma timesteps_spec_timesteps (grid : list Q) :
  forall (D E : list event) (k : nat) (seg : list event) (y x : nat),
    sorted_by_ts (D ++ E) = true ->
    nth_error (timesteps grid E) k = Some seg ->
    clean_pixel y x (D ++ firstn k (closing_events grid E)) ->
    signed_count (nth k (spec_timesteps grid (D ++ E)) []) y x
    = signed_count seg y x.
Proof.
  induction grid as [|ts grid IH]; intros D E k seg y x Hsort Hk Hclean.
  - destruct k; discriminate.
  - cbn [timesteps closing_events spec_timesteps] in *.
    destruct (from_boundary ts E) as [rest|] eqn:Erest; [|destruct k; discriminate].
    destruct (from_boundary_unconsumed ts E rest Erest)
      as (Hun & b & rest' & -> & Hb).
    apply Forall_app in Hclean. destruct Hclean as [HD Hclosed].
    destruct (clean_pixel_consumed y x ts D HD) as [HDc HDu].
    assert (Hall : (exists d, In d D /\ ts < ev_ts d) -> E = b :: rest').
    { intros (d & Hin & Hd). destruct E as [|e E']; [discriminate|].
      assert (He : Qgtb (ev_ts e) ts = true).
      { apply Qgtb_true.
        pose proof (sorted_by_ts_app_le D (e :: E') d e Hsort Hin
                      (or_introl eq_refl)). lra. }
      cbn [from_boundary] in Erest. rewrite He in Erest. congruence. }
    destruct k as [|k].
    + cbn [nth_error nth] in *. injection Hk as <-.
      destruct (consumed_app ts D E) as [[H1 _] | (H1 & _ & Hex)]; rewrite H1.
      * now rewrite signed_count_app, (signed_count_clean D).
      * rewrite (Hall Hex). cbn [consumed]. rewrite Hb.
        now apply signed_count_clean.
    + cbn [nth_error nth tl firstn] in *.
      inversion Hclosed as [|? ? Hbc Hrest]; subst.
      destruct (consumed_app ts D E) as [[H1 H2] | (H1 & H2 & Hex)].
      * rewrite H2, Hun. apply (IH [b] rest' k seg y x); [|exact Hk|].
        -- apply (sorted_by_ts_app_r (consumed ts (D ++ E))).
           rewrite <- H2 in Hun. cbn [app]. rewrite <- Hun.
           now rewrite consumed_unconsumed.
        -- cbn [app]. now constructor.
      * rewrite H2, (Hall Hex).
        change (unconsumed ts D ++ b :: rest')
          with (unconsumed ts D ++ [b] ++ rest').
        rewrite app_assoc.
        apply (IH (unconsumed ts D ++ [b]) rest' k seg y x); [|exact Hk|].
        -- rewrite <- app_assoc. cbn [app]. rewrite <- (Hall Hex), <- H2.
           apply (sorted_by_ts_app_r (consumed ts (D ++ E))).
           now rewrite consumed_unconsumed.
        -- apply Forall_app. split; [|exact Hrest].
           apply Forall_app. split; [exact HDu | now constructor].
Qed.

Lemma timesteps_length (grid : list Q) :
  forall evs : list event, (length (timesteps grid evs) <= length grid)%nat.
Proof.
  induction grid as [|ts grid IH]; intros evs; cbn [timesteps length]; [lia|].
  destruct (from_boundary ts evs); cbn [length]; [|lia].
  specialize (IH (tl l)). lia.
Qed.

Lemma Forall2_nth_error_l {A B : Type} (R : A -> B -> Prop) (l1 : list A)
  (l2 : list B) :
  Forall2 R l1 l2 ->
  forall (k : nat) (a : A),
    nth_error l1 k = Some a -> exists b, nth_error l2 k = Some b /\ R a b.
Proof.
  induction 1 as [|a0 b0 l1 l2 HR _ IH]; intros k a Hk.
  - destruct k; discriminate.
  - destruct k as [|k]; cbn [nth_error] in *.
    + injection Hk as <-. eauto.
    + exact (IH k a Hk).
Qed.

(** C6 (amended): for a stream of in-bounds events sorted by timestamp and an
    image of at least 202 rows, 155 columns and one channel, every frame that
    [generateFrames] returns without [time_window] has 0 at pixel (201, 154)
    and, at every other pixel at which no event lies that closed an earlier
    frame, the number of positive minus the number of non-positive events at
    that pixel among the events consumed in its timestep, the timesteps being
    those of the specification.  The pixels of the events that closed an
    earlier frame are left out. *)
Theorem generateFrames_pixel_values (events : list event) (grid : list Q)
  (h w c : nat) :
  (201 < h)%nat -> (154 < w)%nat -> (0 < c)%nat ->
  Forall (in_bounds h w) events -> sorted_by_ts events = true ->
  exists (frames : list ndarray3) (tail : list event),
    generateFrames events grid h w c None = Ok (frames, tail) /\
    (length frames <= length grid)%nat /\
    forall (k : nat) (f : ndarray3),
      nth_error frames k = Some f ->
      frame_shows h w f (nth k (spec_timesteps grid events) [])
        (firstn k (closing_events grid events)).
Proof.
  intros Hh Hw Hc Hb Hsort. unfold generateFrames.
  destruct (generateFrames_loop_frames events h w c grid Hh Hw Hc Hb O [])
    as (it & frames & E & Hf).
  rewrite E. cbn [bind fst snd app skipn] in *.
  exists frames, (skipn it events). split; [reflexivity|]. split.
  - rewrite (Forall2_length Hf). apply timesteps_length.
  - intros k f Hk.
    destruct (Forall2_nth_error_l _ _ _ Hf k f Hk) as (seg & Hseg & Hfs).
    intros y x Hy Hx. specialize (Hfs y x Hy Hx).
    destruct (Nat.eqb y 201 && Nat.eqb x 154); [exact Hfs|].
    intros Hclean. rewrite Hfs. do 2 f_equal.
    symmetry. exact (timesteps_spec_timesteps grid [] events k seg y x
                       Hsort Hseg Hclean).
Qed.

Lemma generateFrames_pixel_values_witness :
  exists (frames : list ndarray3) (tail : list event),
    generateFrames [ev 154 201 1 1; ev 3 2 1.5 0; ev 0 0 3 1; ev 3 2 3.2 0;
                    ev 1 1 9 1] [2; 3.5] 260 346 1 None
    = Ok (frames, tail) /\
    (length frames <= 2)%nat /\
    forall (k : nat) (f : ndarray3),
      nth_error frames k = Some f ->
      frame_shows 260 346 f
        (nth k (spec_timesteps [2; 3.5]
                  [ev 154 201 1 1; ev 3 2 1.5 0; ev 0 0 3 1; ev 3 2 3.2 0;
                   ev 1 1 9 1]) [])
        (firstn k (closing_events [2; 3.5]
                     [ev 154 201 1 1; ev 3 2 1.5 0; ev 0 0 3 1; ev 3 2 3.2 0;
                      ev 1 1 9 1])).
Proof.
  apply (generateFrames_pixel_values
           [ev 154 201 1 1; ev 3 2 1.5 0; ev 0 0 3 1; ev 3 2 3.2 0; ev 1 1 9 1]
           [2; 3.5] 260 346 1).
  - lia.
  - lia.
  - lia.
  - repeat first [apply Forall_nil | apply Forall_cons]; cbv; intuition discriminate.
  - reflexivity.
Defined.

(** ** generateFrames_temporalROI: how many frames *)

Lemma accumulate_total (h w c : nat) (e : event) (img : ndarray3) :
  (0 < c)%nat -> in_bounds h w e -> shape3 h w c img ->
  exists img',
    (if Qgtb (ev_pol e) 0
     then alter3 (fun q => q + 1) (py_int (ev_y e)) (py_int (ev_x e)) 0 img
     else alter3 (fun q => q - 1) (py_int (ev_y e)) (py_int (ev_x e)) 0 img)
    = Ok img' /\ shape3 h w c img'.
Proof.
  intros Hc [Hx Hy] Hs. destruct (Qgtb (ev_pol e) 0).
  - destruct (alter3_total (fun q => q + 1) (py_int (ev_y e)) (py_int (ev_x e)) 0
                h w c img) as [img' E]; auto; try lia.
    exists img'. split; [exact E | eapply alter3_shape; eauto].
  - destruct (alter3_total (fun q => q - 1) (py_int (ev_y e)) (py_int (ev_x e)) 0
                h w c img) as [img' E]; auto; try lia.
    exists img'. split; [exact E | eapply alter3_shape; eauto].
Qed.

(** One scan, exactly: it appends a frame if and only if more events are
    left than [event_bus] still lacks to the threshold. *)
Lemma generateFrames_temporalROI_scan_exact (h w c : nat) (evs : list event) :
  (201 < h)%nat -> (154 < w)%nat -> (0 < c)%nat ->
  forall (it : nat) (bus : Z) (img : ndarray3),
    Forall (in_bounds h w) evs -> shape3 h w c img ->
    (0 <= bus <= event_threshold_classifier)%Z ->
    if (event_threshold_classifier - bus <? Z.of_nat (length evs))%Z
    then exists f,
           generateFrames_temporalROI_scan evs it bus img
           = Ok ((it + Z.to_nat (event_threshold_classifier - bus) + 1)%nat,
                 0%Z, Some f)
    else generateFrames_temporalROI_scan evs it bus img
         = Ok ((it + length evs)%nat, (bus + Z.of_nat (length evs))%Z, None).
Proof.
  intros Hh Hw Hc. unfold event_threshold_classifier.
  induction evs as [|e evs IH]; intros it bus img Hb Hs Hbus.
  - replace (10000 - bus <? Z.of_nat (length (@nil event)))%Z
      with false by (symmetry; apply Z.ltb_ge; cbn [length]; lia).
    cbn [generateFrames_temporalROI_scan length].
    now rewrite Nat.add_0_r, Z.add_0_r.
  - inversion Hb as [|? ? He Hb']; subst.
    cbn [generateFrames_temporalROI_scan]. unfold event_threshold_classifier.
    destruct (Z.eqb_spec bus 10000) as [Heq|Hne].
    + replace (10000 - bus
               <? Z.of_nat (length (e :: evs)))%Z
        with true by (symmetry; apply Z.ltb_lt; simpl length; lia).
      destruct (alter3_total (fun _ => 0) 201 154 0 h w c img) as [f E];
        auto; try lia.
      rewrite E. cbn [bind]. exists f. do 3 f_equal. lia.
    + destruct (accumulate_total h w c e img Hc He Hs) as (img' & -> & Hs').
      cbn [bind].
      specialize (IH (S it) (bus + 1)%Z img' Hb' Hs' ltac:(lia)).
      replace (10000 - bus <? Z.of_nat (length (e :: evs)))%Z
        with (10000 - (bus + 1) <? Z.of_nat (length evs))%Z
        by (simpl length; destruct (Z.ltb_spec
                                      (10000 - (bus + 1))
                                      (Z.of_nat (length evs)));
            symmetry; [apply Z.ltb_lt | apply Z.ltb_ge]; lia).
      destruct (10000 - (bus + 1) <? Z.of_nat (length evs))%Z.
      * destruct IH as [f E]. exists f. rewrite E. do 3 f_equal. lia.
      * rewrite IH. cbn [length].
        replace (it + S (length evs))%nat with (S it + length evs)%nat by lia.
        replace (bus + Z.of_nat (S (length evs)))%Z
          with (bus + 1 + Z.of_nat (length evs))%Z by lia.
        reflexivity.
Qed.

Lemma generateFrames_temporalROI_loop_exact (events : list event) (h w c : nat)
  (grid : list Q) :
  (201 < h)%nat -> (154 < w)%nat -> (0 < c)%nat ->
  Forall (in_bounds h w) events ->
  forall (it : nat) (bus : Z) (acc : list ndarray3),
    (it <= length events)%nat ->
    (0 <= bus <= event_threshold_classifier)%Z ->
    exists (it' k : nat) (frames : list ndarray3),
      generateFrames_temporalROI_loop events h w c grid it bus acc
      = Ok (it', frames) /\
      length frames = (length acc + k)%nat /\
      Z.of_nat k
      = Z.min (Z.of_nat (length grid))
          ((Z.of_nat (length events - it) + bus)
           / (event_threshold_classifier + 1)) /\
      skipn it' events
      = if Nat.eqb k (length grid)
        then skipn (it + Z.to_nat ((event_threshold_classifier + 1) * Z.of_nat k
                                   - bus)) events
        else [].
Proof.
  intros Hh Hw Hc Hb.
  induction grid as [|ts grid IH]; intros it bus acc Hit Hbus.
  - exists it, O, acc. cbn [generateFrames_temporalROI_loop length Nat.eqb].
    split; [reflexivity|]. split; [lia|]. split.
    + unfold event_threshold_classifier in *.
      assert (0 <= (Z.of_nat (length events - it) + bus) / (10000 + 1))%Z
        by (apply Z.div_pos; lia).
      lia.
    + f_equal. lia.
  - cbn [generateFrames_temporalROI_loop].
    pose proof (generateFrames_temporalROI_scan_exact h w c (skipn it events)
                  Hh Hw Hc it bus (np_zeros3 h w c)
                  (Forall_skipn _ _ _ Hb) (np_zeros3_shape h w c) Hbus) as Hscan.
    rewrite length_skipn in Hscan.
    unfold event_threshold_classifier in *.
    destruct (Z.ltb_spec (10000 - bus) (Z.of_nat (length events - it)))
      as [Hlt|Hge].
    + destruct Hscan as [f E]. rewrite E. cbn [bind fst snd].
      destruct (IH (it + Z.to_nat (10000 - bus) + 1)%nat 0%Z (acc ++ [f]))
        as (it' & k & frames & Eloop & Hlen & Hk & Htail); try lia.
      exists it', (S k), frames. split; [exact Eloop|].
      split; [rewrite Hlen, length_app; simpl; lia|]. split.
      * replace (Z.of_nat (length events - it) + bus)%Z
          with ((Z.of_nat (length events - (it + Z.to_nat (10000 - bus) + 1)) + 0)
                + 1 * (10000 + 1))%Z by lia.
        rewrite Z.div_add by lia. cbn [length]. lia.
      * rewrite Htail. cbn [length Nat.eqb]. destruct (Nat.eqb k (length grid));
          [|reflexivity].
        f_equal. lia.
    + rewrite Hscan. cbn [bind fst snd].
      destruct (IH (it + (length events - it))%nat
                  (bus + Z.of_nat (length events - it))%Z acc)
        as (it' & k & frames & Eloop & Hlen & Hk & Htail); try lia.
      replace (length events - (it + (length events - it)))%nat with O in Hk by lia.
      rewrite Z.div_small in Hk by lia.
      assert (k = O) by lia. subst k.
      exists it', O, frames. split; [exact Eloop|]. split; [exact Hlen|]. split.
      * rewrite Z.div_small by lia. cbn [length]. lia.
      * rewrite Htail. cbn [length Nat.eqb].
        destruct (length grid); [|reflexivity].
        apply skipn_all2. lia.
Qed.

(** C7, as the specification states it, does not hold: below the event
    threshold no frame is appended, whatever the grid. *)
Lemma generateFrames_temporalROI_frame_count_refuted :
  generateFrames_temporalROI [] [0] 1 1 1 = Ok ([], []) /\
  length (@nil ndarray3) <> length [0].
Proof. split; [reflexivity | discriminate]. Qed.

(** C7 (amended): for in-bounds events and an image of at least 202 rows, 155
    columns and one channel, [generateFrames_temporalROI] returns one frame
    per grid entry as long as the events last: never more frames than grid
    entries; exactly one per grid entry whenever the stream holds 10001
    events for every grid entry; when a grid entry got no frame, fewer than
    10001 events were there for it; and the returned frames stand for 10000
    accumulated events each, with a further event read.  What becomes of the
    event read at the threshold is left out: the bounds hold whether or not
    it is counted in a later frame. *)
Theorem generateFrames_temporalROI_frame_count (events : list event)
  (grid : list Q) (h w c : nat) :
  (201 < h)%nat -> (154 < w)%nat -> (0 < c)%nat ->
  Forall (in_bounds h w) events ->
  exists (frames : list ndarray3) (tail : list event),
    generateFrames_temporalROI events grid h w c = Ok (frames, tail) /\
    (length frames <= length grid)%nat /\
    (((event_threshold_classifier + 1) * Z.of_nat (length grid)
      <= Z.of_nat (length events))%Z ->
     length frames = length grid) /\
    ((length frames < length grid)%nat ->
     (Z.of_nat (length events)
      < (event_threshold_classifier + 1) * (Z.of_nat (length frames) + 1))%Z) /\
    ((0 < length frames)%nat ->
     (event_threshold_classifier * Z.of_nat (length frames)
      < Z.of_nat (length events))%Z).
Proof.
  intros Hh Hw Hc Hb. unfold generateFrames_temporalROI.
  destruct (generateFrames_temporalROI_loop_exact events h w c grid Hh Hw Hc Hb
              O 0%Z []) as (it & k & frames & E & Hlen & Hk & _).
  - lia.
  - unfold event_threshold_classifier. lia.
  - rewrite E. cbn [bind fst snd]. exists frames, (skipn it events).
    split; [reflexivity|].
    cbn [length Nat.add] in Hlen. subst k.
    rewrite Nat.sub_0_r, Z.add_0_r in Hk.
    unfold event_threshold_classifier in *.
    change (10000 + 1)%Z with 10001%Z in *.
    pose proof (Z.div_mod (Z.of_nat (length events)) 10001 ltac:(lia)) as Hdiv.
    pose proof (Z.mod_pos_bound (Z.of_nat (length events)) 10001 ltac:(lia))
      as Hmod.
    set (q := (Z.of_nat (length events) / 10001)%Z) in *.
    set (r := (Z.of_nat (length events) mod 10001)%Z) in *.
    repeat split; lia.
Qed.

Lemma generateFrames_temporalROI_frame_count_witness :
  exists (frames : list ndarray3) (tail : list event),
    generateFrames_temporalROI long_stream_example [2; 4] 260 346 1
    = Ok (frames, tail) /\
    length frames = 2%nat.
Proof.
  destruct (generateFrames_temporalROI_frame_count long_stream_example
              [2; 4] 260 346 1) as (frames & tail & E & _ & Hall & _).
  - lia.
  - lia.
  - lia.
  - apply Forall_repeat. cbv. intuition discriminate.
  - exists frames, tail. split; [exact E|]. apply Hall.
    unfold long_stream_example, event_threshold_classifier.
    rewrite repeat_length, Z2Nat.id by lia. cbn [length]. lia.
Defined.

(** ** updateContactStatus: labels stay labels *)

Lemma py_get_total {A : Type} (l : list A) (i : Z) :
  (0 <= i < Z.of_nat (length l))%Z -> exists a, py_get l i = Ok a.
Proof.
  intros Hi. unfold py_get. rewrite norm_index_nonneg by assumption. simpl.
  destruct (nth_error l (Z.to_nat i)) as [a|] eqn:E; [eauto|].
  apply nth_error_None in E. lia.
Qed.

Section ContactStatusProperties.

Variables (math_cos math_sin : Q -> Q) (math_pi : Q) (np_sqrt : Q -> Q).

Lemma matmul2_total (rot_mat : (Q * Q) * (Q * Q)) (v : list Q) :
  (2 <= length v)%nat -> exists p, matmul2 rot_mat v = Ok p.
Proof.
  intros H. destruct v as [|a [|b v]]; simpl in H; try lia.
  unfold matmul2. simpl. eauto.
Qed.

(** The search returns the initial best index or a position it visited. *)
Lemma nearest_rotation_range (rotated : Q * Q) (rots : list (list Q)) :
  Forall (fun v => (2 <= length v)%nat) rots ->
  forall (i : Z) (best_rot_diff : Q) (best_rot_idx : Z),
    exists r,
      nearest_rotation np_sqrt rotated rots i best_rot_diff best_rot_idx = Ok r /\
      (r = best_rot_idx \/ (i <= r < i + Z.of_nat (length rots))%Z).
Proof.
  induction 1 as [|rot rots Hrot _ IH]; intros i d idx.
  - exists idx. simpl. auto.
  - cbn [nearest_rotation].
    destruct (py_get_total rot 0 ltac:(lia)) as [r0 ->].
    destruct (py_get_total rot 1 ltac:(lia)) as [r1 ->].
    cbn [bind length].
    destruct (Qgtb d _).
    + destruct (IH (i + 1)%Z
                  (np_sqrt ((r0 - fst rotated) ^ 2 + (r1 - snd rotated) ^ 2)) i)
        as (r & -> & Hr).
      exists r. split; [reflexivity|]. right. lia.
    + destruct (IH (i + 1)%Z d idx) as (r & -> & Hr).
      exists r. split; [reflexivity|]. destruct Hr; [auto | right; lia].
Qed.

Lemma updateContactStatus_loop_labels (table : list (list Q))
  (rot_mat : (Q * Q) * (Q * Q)) (labels : list Z) :
  (1 <= length table)%nat ->
  Forall (fun v => (2 <= length v)%nat) table ->
  Forall (fun l => l = 0%Z \/ (1 <= l <= Z.of_nat (length table))%Z) labels ->
  exists out,
    updateContactStatus_loop np_sqrt table rot_mat labels = Ok out /\
    Forall2 (label_kept (length table)) labels out.
Proof.
  intros Hn Hv. induction 1 as [|l labels Hl _ IH].
  - exists []. simpl. auto.
  - destruct IH as (rest & Erest & Hrest).
    cbn [updateContactStatus_loop].
    destruct (Z.eqb_spec l 0) as [->|Hne].
    + cbn [bind]. rewrite Erest. cbn [bind].
      exists (0%Z :: rest). split; [reflexivity|].
      constructor; [|exact Hrest]. split; [tauto | congruence].
    + destruct Hl as [Hl|Hl]; [congruence|].
      destruct (py_get_total table (l - 1) ltac:(lia)) as [cur Ecur].
      rewrite Ecur. cbn [bind].
      assert (Hcur : (2 <= length cur)%nat).
      { unfold py_get in Ecur. inv_bind Ecur.
        destruct (nth_error table a) as [v|] eqn:Env; [|discriminate].
        injection Ecur as <-. apply nth_error_In in Env.
        rewrite Forall_forall in Hv. auto. }
      destruct (matmul2_total rot_mat cur Hcur) as [p ->]. cbn [bind].
      destruct (nearest_rotation_range p table Hv 1%Z 100 1%Z) as (r & -> & Hr).
      cbn [bind]. rewrite Erest. cbn [bind].
      exists (r :: rest). split; [reflexivity|].
      constructor; [|exact Hrest]. split; [split; lia | lia].
Qed.

(** C10: for a reference table with at least one vector (each of at least
    two components), any rotation angle and labels that are 0 or index into
    the table, [updateContactStatus] returns a list of the same length whose
    entry is 0 exactly where the input label is 0 and otherwise lies between
    1 and the length of the table. *)
Theorem updateContactStatus_labels (labels : list Z) (table : list (list Q))
  (rotation_angle : Q) :
  (1 <= length table)%nat ->
  Forall (fun v => (2 <= length v)%nat) table ->
  Forall (fun l => l = 0%Z \/ (1 <= l <= Z.of_nat (length table))%Z) labels ->
  exists out,
    updateContactStatus math_cos math_sin math_pi np_sqrt
      labels table rotation_angle = Ok out /\
    length out = length labels /\
    Forall2 (label_kept (length table)) labels out.
Proof.
  intros Hn Hv Hl. unfold updateContactStatus. cbv zeta.
  match goal with
  | |- context [updateContactStatus_loop _ _ ?m _] =>
      destruct (updateContactStatus_loop_labels table m labels Hn Hv Hl)
        as (out & E & Hout)
  end.
  exists out. split; [exact E|]. split; [|exact Hout].
  symmetry. eapply Forall2_length; eauto.
Qed.

End ContactStatusProperties.

Lemma updateContactStatus_labels_witness :
  exists out,
    updateContactStatus (fun _ => 0) (fun _ => 1) 3 (fun q => q)
      [0; 1; 2; 0]%Z [[1; 0]; [0; 1; 5]] 90 = Ok out /\
    length out = 4%nat /\
    Forall2 (label_kept 2) [0; 1; 2; 0]%Z out.
Proof.
  apply (updateContactStatus_labels (fun _ => 0) (fun _ => 1) 3 (fun q => q)
           [0; 1; 2; 0]%Z [[1; 0]; [0; 1; 5]] 90).
  - simpl; lia.
  - repeat first [apply Forall_nil | apply Forall_cons]; simpl; lia.
  - repeat first [apply Forall_nil | apply Forall_cons]; simpl; lia.
Defined.

(** ** Resuming from the returned remainder *)

Lemma generateFrames_scan_shift (ts : Q) (time_window : option Q) (k : nat)
  (evs : list event) :
  forall (it : nat) (img : ndarray3),
    generateFrames_scan ts time_window evs (k + it) img
    = shift_cursor k (generateFrames_scan ts time_window evs it img).
Proof.
  induction evs as [|e evs IH]; intros it img; [reflexivity|].
  cbn [generateFrames_scan]. rewrite <- !Nat.add_succ_r.
  destruct (match time_window with
            | Some tw => Qgtb (ev_ts e) (ts - tw)
            | None => true
            end); [|apply IH].
  destruct (Qgtb (ev_ts e) ts).
  - destruct (alter3 _ 201 154 0 img); reflexivity.
  - destruct (if Qgtb (ev_pol e) 0 then _ else _); [apply IH | reflexivity].
Qed.

Lemma generateFrames_loop_shift (events : list event) (h w c : nat)
  (time_window : option Q) (k : nat) (acc0 : list ndarray3) (grid : list Q) :
  forall (it : nat) (acc : list ndarray3),
    generateFrames_loop events h w c time_window grid (k + it) (acc0 ++ acc)
    = match generateFrames_loop (skipn k events) h w c time_window grid it acc with
      | Ok (it', frames) => Ok ((k + it')%nat, acc0 ++ frames)
      | Raise e => Raise e
      end.
Proof.
  induction grid as [|ts grid IH]; intros it acc; [reflexivity|].
  cbn [generateFrames_loop].
  rewrite skipn_skipn, (Nat.add_comm it k), generateFrames_scan_shift.
  destruct (generateFrames_scan ts time_window (skipn (k + it) events) it _)
    as [[it1 [f|]]|e]; cbn [shift_cursor bind fst snd]; try reflexivity.
  - rewrite <- app_assoc. apply IH.
  - apply IH.
Qed.

Lemma generateFrames_loop_app (events : list event) (h w c : nat)
  (time_window : option Q) (grid1 grid2 : list Q) :
  forall (it : nat) (acc : list ndarray3),
    generateFrames_loop events h w c time_window (grid1 ++ grid2) it acc
    = r <- generateFrames_loop events h w c time_window grid1 it acc ;;
      generateFrames_loop events h w c time_window grid2 (fst r) (snd r).
Proof.
  induction grid1 as [|ts grid1 IH]; intros it acc; [reflexivity|].
  cbn [generateFrames_loop app].
  destruct (generateFrames_scan ts time_window (skipn it events) it _)
    as [r|e]; cbn [bind]; [apply IH | reflexivity].
Qed.

(** [generateFrames] is resumable: a call over a grid equals the call over a
    prefix of the grid followed by the call over the rest of the grid on the
    returned remainder, frames concatenated, errors included. *)
Theorem generateFrames_resumable (events : list event) (grid1 grid2 : list Q)
  (h w c : nat) (time_window : option Q) :
  generateFrames events (grid1 ++ grid2) h w c time_window
  = r1 <- generateFrames events grid1 h w c time_window ;;
    r2 <- generateFrames (snd r1) grid2 h w c time_window ;;
    Ok (fst r1 ++ fst r2, snd r2).
Proof.
  unfold generateFrames. rewrite generateFrames_loop_app.
  destruct (generateFrames_loop events h w c time_window grid1 O [])
    as [[it1 frames1]|e]; cbn [bind fst snd]; [|reflexivity].
  pose proof (generateFrames_loop_shift events h w c time_window it1 frames1
                grid2 O []) as Hs.
  rewrite Nat.add_0_r, app_nil_r in Hs. rewrite Hs.
  destruct (generateFrames_loop (skipn it1 events) h w c time_window grid2 O [])
    as [[it2 frames2]|e]; cbn [bind fst snd]; [|reflexivity].
  now rewrite skipn_skipn, (Nat.add_comm it2 it1).
Qed.

Lemma ConcatenateEvents_scan_shift (junk : nat -> nat -> Q) (ts step : Q)
  (h w k : nat) (evs : list event) :
  forall (it : nat) (img : ndarray3) (cm tm : ndarray2),
    ConcatenateEvents_scan junk ts step h w evs (k + it) img cm tm
    = shift_cursor k (ConcatenateEvents_scan junk ts step h w evs it img cm tm).
Proof.
  induction evs as [|e evs IH]; intros it img cm tm; [reflexivity|].
  cbn [ConcatenateEvents_scan]. rewrite <- !Nat.add_succ_r.
  destruct (Qgtb (ev_ts e) ts); [reflexivity|].
  destruct (if Qgtb (ev_pol e) 0 then _ else _); [|reflexivity].
  cbn [bind]. destruct (alter2 _ _ _ cm); [|reflexivity].
  cbn [bind]. destruct (alter2 _ _ _ tm); [|reflexivity].
  cbn [bind]. apply IH.
Qed.

Lemma ConcatenateEvents_loop_shift (junk : nat -> nat -> nat -> Q)
  (events : list event) (step : Q) (h w k : nat) (acc0 : list ndarray3)
  (grid : list Q) :
  skipn k events <> [] ->
  forall (it : nat) (acc : list ndarray3),
    ConcatenateEvents_loop junk events step h w grid (k + it) (acc0 ++ acc)
    = match ConcatenateEvents_loop (fun n => junk (length acc0 + n)%nat)
              (skipn k events) step h w grid it acc with
      | Ok (it', frames) => Ok ((k + it')%nat, acc0 ++ frames)
      | Raise e => Raise e
      end.
Proof.
  intros Hne.
  assert (Hp : forall a b, print_progress a (length events) = Ok tt /\
                           print_progress b (length (skipn k events)) = Ok tt).
  { intros a b. split.
    - destruct events; [now destruct k|reflexivity].
    - destruct (skipn k events); [congruence|reflexivity]. }
  induction grid as [|ts grid IH]; intros it acc; [reflexivity|].
  cbn [ConcatenateEvents_loop].
  rewrite (proj1 (Hp (k + it)%nat it)), (proj2 (Hp (k + it)%nat it)). cbn [bind].
  rewrite skipn_skipn, (Nat.add_comm it k), ConcatenateEvents_scan_shift, length_app.
  destruct (ConcatenateEvents_scan (junk (length acc0 + length acc)%nat) ts step
              h w (skipn (k + it) events) it _ _ _)
    as [[it1 [f|]]|e]; cbn [shift_cursor bind fst snd]; try reflexivity.
  - rewrite <- app_assoc. apply IH.
  - apply IH.
Qed.

Lemma ConcatenateEvents_loop_app (junk : nat -> nat -> nat -> Q)
  (events : list event) (step : Q) (h w : nat) (grid1 grid2 : list Q) :
  forall (it : nat) (acc : list ndarray3),
    ConcatenateEvents_loop junk events step h w (grid1 ++ grid2) it acc
    = r <- ConcatenateEvents_loop junk events step h w grid1 it acc ;;
      ConcatenateEvents_loop junk events step h w grid2 (fst r) (snd r).
Proof.
  induction grid1 as [|ts grid1 IH]; intros it acc; [reflexivity|].
  cbn [ConcatenateEvents_loop app].
  destruct (print_progress it (length events)); [|reflexivity]. cbn [bind].
  destruct (ConcatenateEvents_scan _ ts step h w (skipn it events) it _ _ _)
    as [r|e]; cbn [bind]; [apply IH | reflexivity].
Qed.

Lemma last_gap_app (grid1 grid2 : list Q) (step : Q) :
  last_gap grid2 = Ok step -> last_gap (grid1 ++ grid2) = Ok step.
Proof.
  unfold last_gap. rewrite rev_app_distr.
  destruct (rev grid2) as [|a [|b l]]; try discriminate. auto.
Qed.

(** [ConcatenateEvents] resumes correctly as long as the remainder returned
    for the prefix of the grid is not empty: with the same grid spacing in
    both parts, the call over the whole grid equals the call over the
    remainder and the rest of the grid, behind the frames of the prefix. *)
Theorem ConcatenateEvents_resumable (junk : nat -> nat -> nat -> Q)
  (events : list event) (grid1 grid2 : list Q) (h w : nat) (step : Q)
  (frames1 : list ndarray3) (tail1 : list event) :
  last_gap grid1 = Ok step -> last_gap grid2 = Ok step ->
  ConcatenateEvents junk events grid1 h w = Ok (frames1, tail1) ->
  tail1 <> [] ->
  ConcatenateEvents junk events (grid1 ++ grid2) h w
  = r2 <- ConcatenateEvents (fun n => junk (length frames1 + n)%nat)
            tail1 grid2 h w ;;
    Ok (frames1 ++ fst r2, snd r2).
Proof.
  intros Hg1 Hg2 H1 Hne. unfold ConcatenateEvents in *.
  rewrite (last_gap_app grid1 grid2 step Hg2), Hg2. rewrite Hg1 in H1.
  cbn [bind] in *. rewrite ConcatenateEvents_loop_app.
  destruct (ConcatenateEvents_loop junk events step h w grid1 O [])
    as [[it1 fs1]|e]; cbn [bind fst snd] in *; [|discriminate].
  injection H1 as -> <-.
  pose proof (ConcatenateEvents_loop_shift junk events step h w it1 frames1
                grid2 Hne O []) as Hs.
  rewrite Nat.add_0_r, app_nil_r in Hs. rewrite Hs.
  destruct (ConcatenateEvents_loop _ (skipn it1 events) step h w grid2 O [])
    as [[it2 frames2]|e]; cbn [bind fst snd]; [|reflexivity].
  now rewrite skipn_skipn, (Nat.add_comm it2 it1).
Qed.

Lemma ConcatenateEvents_resumable_witness :
  ConcatenateEvents zero_junk
    [ev 0 0 0.5 1; ev 0 0 1.5 1; ev 0 0 9 1; ev 0 0 10 1] ([1; 2] ++ [3; 4]) 1 1
  = r2 <- ConcatenateEvents
            (fun n => zero_junk (length prefix_frames_example + n)%nat)
            [ev 0 0 10 1] [3; 4] 1 1 ;;
    Ok (prefix_frames_example ++ fst r2, snd r2).
Proof.
  apply (ConcatenateEvents_resumable zero_junk
           [ev 0 0 0.5 1; ev 0 0 1.5 1; ev 0 0 9 1; ev 0 0 10 1]
           [1; 2] [3; 4] 1 1 1 prefix_frames_example [ev 0 0 10 1]).
  - reflexivity.
  - reflexivity.
  - vm_compute. reflexivity.
  - discriminate.
Defined.

(** C9 on a concrete stream: over the grid 1, 2, 3, 4 a single call returns
    one frame and an empty remainder; the call on the prefix 1, 2 returns the
    same, and the resumed call on the suffix 3, 4 with that remainder
    raises. *)
Lemma ConcatenateEvents_resume_raises (junk : nat -> nat -> nat -> Q) :
  exists frames : list ndarray3,
    ConcatenateEvents junk [ev 0 0 0.5 1; ev 0 0 1.5 1] [1; 2; 3; 4] 1 1
    = Ok (frames, []) /\
    ConcatenateEvents junk [ev 0 0 0.5 1; ev 0 0 1.5 1] [1; 2] 1 1
    = Ok (frames, []) /\
    ConcatenateEvents junk [] [3; 4] 1 1 = Raise ZeroDivisionError.
Proof. eexists. repeat split. Qed.


(** * Further properties *)

(** ** Subsequences *)

Lemma subseq_refl {A : Type} (l : list A) : subseq l l.
Proof. induction l; [apply subseq_nil | now apply subseq_keep]. Qed.

Lemma subseq_nil_l {A : Type} (l : list A) : subseq [] l.
Proof. induction l; constructor; auto. Qed.

Lemma subseq_app {A : Type} (l1 l2 l3 l4 : list A) :
  subseq l1 l2 -> subseq l3 l4 -> subseq (l1 ++ l3) (l2 ++ l4).
Proof.
  induction 1; intros H'; simpl;
    [assumption | apply subseq_skip | apply subseq_keep]; auto.
Qed.

Lemma subseq_length {A : Type} (l1 l2 : list A) :
  subseq l1 l2 -> (length l1 <= length l2)%nat.
Proof. induction 1; simpl; lia. Qed.

(** ** extractEventsByTime *)

(** With [time_window=None] the function never returns on a non-empty grid:
    the progress print raises on an empty event list, and otherwise the first
    event read passes the window test and [time_window/2] then fails. *)
Theorem extractEventsByTime_None_raises (event_list : list event) (ts : Q)
  (time_steps : list Q) :
  extractEventsByTime event_list (ts :: time_steps) None
  = Throw (match event_list with
           | [] => Builtin ZeroDivisionError
           | _ :: _ => TypeError
           end).
Proof. destruct event_list; reflexivity. Qed.

(** One scan with a numeric window: either the stream runs out, or the group
    is the given one extended by window events and one closing event, all
    taken in order from the first [n] events. *)
Lemma extractEventsByTime_scan_group (ts tw : Q) (evs : list event) :
  forall (it : nat) (group : list event),
    extractEventsByTime_scan ts (Some tw) evs it group
    = Return ((it + length evs)%nat, None)
    \/ exists (n : nat) (body : list event) (last : event),
         extractEventsByTime_scan ts (Some tw) evs it group
         = Return ((it + n)%nat, Some (group ++ body ++ [last])) /\
         (n <= length evs)%nat /\
         subseq (body ++ [last]) (firstn n evs) /\
         Forall (fun e => ts - tw / 2 < ev_ts e /\ ev_ts e <= ts + tw / 2) body /\
         ts + tw / 2 < ev_ts last /\ ts - tw / 2 < ev_ts last.
Proof.
  induction evs as [|e evs IH]; intros it group.
  - left. simpl. now rewrite Nat.add_0_r.
  - cbn [extractEventsByTime_scan].
    destruct (Qgtb (ev_ts e) (ts - tw / 2)) eqn:Elow.
    + destruct (Qgtb (ev_ts e) (ts + tw / 2)) eqn:Ehigh.
      * right. exists 1%nat, [], e. rewrite Nat.add_1_r. simpl.
        apply Qgtb_true in Elow, Ehigh.
        repeat split; auto; try lia. apply subseq_keep, subseq_nil_l.
      * destruct (IH (S it) (group ++ [e])) as [H | (n & body & last & H & Hn & Hs & Hb & Hl1 & Hl2)].
        -- left. rewrite H. simpl. do 2 f_equal. lia.
        -- right. exists (S n), (e :: body), last. rewrite H.
           rewrite <- app_assoc. simpl. rewrite Nat.add_succ_r.
           apply Qgtb_true in Elow. apply Qgtb_false in Ehigh.
           repeat split; auto; try lia. now apply subseq_keep.
    + destruct (IH (S it) group) as [H | (n & body & last & H & Hn & Hs & Hb & Hl1 & Hl2)].
      * left. rewrite H. simpl. do 2 f_equal. lia.
      * right. exists (S n), body, last. rewrite H. rewrite Nat.add_succ_r.
        repeat split; auto; simpl; try lia. now apply subseq_skip.
Qed.

Lemma extractEventsByTime_loop_exhausted (event_list : list event) (tw : Q)
  (it : nat) :
  event_list <> [] -> skipn it event_list = [] ->
  forall (time_steps : list Q) (acc : list (list event)),
    extractEventsByTime_loop event_list (Some tw) time_steps it acc = Return acc.
Proof.
  intros Hne H. induction time_steps as [|ts time_steps IH]; intros acc;
    [reflexivity|].
  cbn [extractEventsByTime_loop]. rewrite H.
  destruct event_list; [congruence|]. simpl. apply IH.
Qed.

Lemma extractEventsByTime_loop_groups (event_list : list event) (tw : Q)
  (time_steps : list Q) :
  event_list <> [] ->
  forall (it : nat) (acc : list (list event)),
    exists new : list (list event),
      extractEventsByTime_loop event_list (Some tw) time_steps it acc
      = Return (acc ++ new) /\
      (length new <= length time_steps)%nat /\
      Forall2 (group_for tw) (firstn (length new) time_steps) new /\
      subseq (concat new) (skipn it event_list).
Proof.
  intros Hne. induction time_steps as [|ts time_steps IH]; intros it acc.
  - exists []. simpl. rewrite app_nil_r. repeat split; auto. apply subseq_nil_l.
  - cbn [extractEventsByTime_loop].
    replace (print_progress it (length event_list)) with (Ok tt)
      by (destruct event_list; [congruence | reflexivity]).
    cbn [lift bind_ext].
    destruct (extractEventsByTime_scan_group ts tw (skipn it event_list) it [])
      as [H | (n & body & last & H & Hn & Hs & Hb & Hl1 & Hl2)].
    + rewrite H. cbn [bind_ext fst snd].
      rewrite extractEventsByTime_loop_exhausted; auto.
      * exists []. rewrite app_nil_r. simpl. repeat split; auto; try lia.
        apply subseq_nil_l.
      * apply skipn_all2. rewrite length_skipn. lia.
    + rewrite H. cbn [bind_ext fst snd app].
      destruct (IH (it + n)%nat (acc ++ [body ++ [last]]))
        as (new & E & Hlen & Hg & Hsub).
      exists ((body ++ [last]) :: new). rewrite E, <- app_assoc.
      split; [reflexivity|]. split; [simpl; lia|]. split.
      * simpl. constructor; [|exact Hg]. exists body, last. auto.
      * simpl. rewrite <- (firstn_skipn n (skipn it event_list)).
        apply subseq_app; [exact Hs|].
        now rewrite skipn_skipn, (Nat.add_comm n it).
Qed.

(** With a numeric window and a non-empty event list the function returns at
    most one group per grid entry, for the leading grid entries in order;
    each group is made of events inside the window of its grid timestamp
    followed by one event beyond it, and the groups, put end to end, are
    events of the stream in stream order, none of them twice.  The window and
    the grid timestamps are integers of magnitude at most 2^51: for these the
    code forms [ts - time_window/2] and [ts + time_window/2] without
    rounding, so that the bounds of the embedding are the bounds of the
    code. *)
Theorem extractEventsByTime_groups (event_list : list event)
  (time_steps : list Q) (time_window : Q) :
  event_list <> [] ->
  exact_time time_window -> Forall exact_time time_steps ->
  exists groups : list (list event),
    extractEventsByTime event_list time_steps (Some time_window) = Return groups /\
    (length groups <= length time_steps)%nat /\
    Forall2 (group_for time_window) (firstn (length groups) time_steps) groups /\
    subseq (concat groups) event_list.
Proof.
  intros Hne _ _. unfold extractEventsByTime.
  destruct (extractEventsByTime_loop_groups event_list time_window time_steps
              Hne O []) as (new & E & H).
  exists new. split; [exact E | exact H].
Qed.

Lemma extractEventsByTime_groups_witness :
  exists groups : list (list event),
    extractEventsByTime
      [ev 0 0 1 1; ev 0 0 2 1; ev 0 0 3 1; ev 0 0 9 1; ev 0 0 10 1;
       ev 0 0 10.5 1; ev 0 0 12 1] [2; 10] (Some 2)
    = Return groups /\
    (length groups <= 2)%nat /\
    Forall2 (group_for 2) (firstn (length groups) [2; 10]) groups /\
    subseq (concat groups)
      [ev 0 0 1 1; ev 0 0 2 1; ev 0 0 3 1; ev 0 0 9 1; ev 0 0 10 1;
       ev 0 0 10.5 1; ev 0 0 12 1].
Proof.
  apply (extractEventsByTime_groups
           [ev 0 0 1 1; ev 0 0 2 1; ev 0 0 3 1; ev 0 0 9 1; ev 0 0 10 1;
            ev 0 0 10.5 1; ev 0 0 12 1]
           [2; 10] 2).
  - discriminate.
  - split; [reflexivity | vm_compute; discriminate].
  - repeat first [apply Forall_nil | apply Forall_cons];
      (split; [reflexivity | vm_compute; discriminate]).
Defined.

(** ** eventsToFrameSequence *)

Lemma signed_total_cons (e : event) (evs : list event) :
  signed_total (e :: evs)
  = ((if Qgtb (ev_pol e) 0 then 1 else -1) + signed_total evs)%Z.
Proof.
  unfold signed_total. simpl. destruct (Qgtb (ev_pol e) 0); simpl length; lia.
Qed.

(** Accumulating one in-bounds event changes the channel-0 sum by its sign. *)
Lemma accumulate_sum0 (h w c : nat) (e : event) (img : ndarray3) :
  (0 < c)%nat -> in_bounds h w e -> shape3 h w c img ->
  exists img',
    (if Qgtb (ev_pol e) 0
     then alter3 (fun q => q + 1) (py_int (ev_y e)) (py_int (ev_x e)) 0 img
     else alter3 (fun q => q - 1) (py_int (ev_y e)) (py_int (ev_x e)) 0 img)
    = Ok img' /\
    shape3 h w c img' /\
    channel_sum 0 img'
    == channel_sum 0 img + inject_Z (if Qgtb (ev_pol e) 0 then 1 else -1).
Proof.
  intros Hc He Hs.
  destruct (accumulate_total h w c e img Hc He Hs) as (img' & E & Hs').
  exists img'. split; [exact E|]. split; [exact Hs'|].
  destruct (Qgtb (ev_pol e) 0).
  - rewrite (alter3_channel_sum 1 _ _ 0 0 _ _ E). reflexivity.
  - rewrite (alter3_channel_sum (-1) _ _ 0 0 _ _ E). reflexivity.
Qed.

Lemma frames_sum0_app (l1 l2 : list ndarray3) :
  frames_sum0 (l1 ++ l2) == frames_sum0 l1 + frames_sum0 l2.
Proof. unfold frames_sum0. now rewrite map_app, sum_list_app. Qed.

Lemma eventsToFrameSequence_loop_cons (ts_min tw : Q) (h w c : nat) (e : event)
  (evs : list event) (ti : Z) (img : ndarray3) (acc : list ndarray3) :
  eventsToFrameSequence_loop ts_min tw h w c (e :: evs) ti img acc
  = img' <- (if Qgtb (ev_pol e) 0
             then alter3 (fun q => q + 1) (py_int (ev_y e)) (py_int (ev_x e)) 0 img
             else alter3 (fun q => q - 1) (py_int (ev_y e)) (py_int (ev_x e)) 0 img) ;;
    if Qgtb (ev_ts e) (inject_Z ti * tw + ts_min)
       || match evs with [] => true | _ :: _ => false end
    then eventsToFrameSequence_loop ts_min tw h w c evs (ti + 1)%Z
           (np_zeros3 h w c) (acc ++ [img'])
    else eventsToFrameSequence_loop ts_min tw h w c evs ti img' acc.
Proof. reflexivity. Qed.

(** The loop on a non-empty stream: it appends at least one frame, at most
    one per event, and the appended frames hold what [event_image] held plus
    every event read. *)
Lemma eventsToFrameSequence_loop_frames (ts_min tw : Q) (h w c : nat)
  (evs : list event) :
  (0 < c)%nat ->
  forall (e : event) (ti : Z) (img : ndarray3) (acc : list ndarray3),
    Forall (in_bounds h w) (e :: evs) -> shape3 h w c img ->
    exists new : list ndarray3,
      eventsToFrameSequence_loop ts_min tw h w c (e :: evs) ti img acc
      = Ok (acc ++ new) /\
      (1 <= length new <= length (e :: evs))%nat /\
      frames_sum0 new == channel_sum 0 img + inject_Z (signed_total (e :: evs)).
Proof.
  intros Hc. induction evs as [|e' evs IH]; intros e ti img acc Hb Hs;
    inversion Hb as [|? ? He Hb']; subst;
    rewrite eventsToFrameSequence_loop_cons;
    destruct (accumulate_sum0 h w c e img Hc He Hs) as (img' & -> & Hs' & Hsum);
    cbn [bind]; rewrite signed_total_cons, inject_Z_plus.
  - rewrite orb_true_r. cbn [eventsToFrameSequence_loop].
    exists [img']. split; [reflexivity|]. split; [simpl; lia|].
    unfold frames_sum0, signed_total. simpl. rewrite Hsum. ring.
  - rewrite orb_false_r.
    destruct (Qgtb (ev_ts e) (inject_Z ti * tw + ts_min)).
    + destruct (IH e' (ti + 1)%Z (np_zeros3 h w c) (acc ++ [img']) Hb'
                  (np_zeros3_shape h w c)) as (new & E & Hlen & Hnew).
      exists (img' :: new). rewrite E, <- app_assoc.
      split; [reflexivity|]. split; [simpl in *; lia|].
      change (img' :: new) with ([img'] ++ new).
      rewrite frames_sum0_app, Hnew, channel_sum_zeros.
      unfold frames_sum0. simpl. rewrite Hsum. ring.
    + destruct (IH e' ti img' acc Hb' Hs') as (new & E & Hlen & Hnew).
      exists new. split; [exact E|]. split; [simpl in *; lia|].
      rewrite Hnew, Hsum. ring.
Qed.

(** Without a frame count ([N_frames <= 0]) no event is lost or counted
    twice: for a non-empty stream of in-bounds events the function returns
    between one frame and one frame per event, and the channel-0 entries of
    all frames add up to the number of positive minus the number of
    non-positive events. *)
Theorem eventsToFrameSequence_conservation (events : list event) (h w c : nat)
  (time_window : Q) (N_frames : Z) :
  events <> [] -> Forall (in_bounds h w) events -> (0 < c)%nat ->
  (N_frames <= 0)%Z ->
  exists frames : list ndarray3,
    eventsToFrameSequence events h w c time_window N_frames = Ok frames /\
    (1 <= length frames <= length events)%nat /\
    frames_sum0 frames == inject_Z (signed_total events).
Proof.
  intros Hne Hb Hc HN. destruct events as [|e evs]; [congruence|].
  unfold eventsToFrameSequence.
  destruct (eventsToFrameSequence_loop_frames (ev_ts e) time_window h w c evs Hc
              e 1%Z (np_zeros3 h w c) [] Hb (np_zeros3_shape h w c))
    as (new & E & Hlen & Hsum).
  rewrite E. cbn [bind app]. unfold fit_N_frames.
  replace (0 <? N_frames)%Z with false by (symmetry; apply Z.ltb_ge; lia).
  exists new. split; [reflexivity|]. split; [exact Hlen|].
  rewrite Hsum, channel_sum_zeros. ring.
Qed.

Lemma eventsToFrameSequence_conservation_witness :
  exists frames : list ndarray3,
    eventsToFrameSequence [ev 0 0 1 1; ev 1 0 2 0; ev 0 0 9 1] 1 2 1 2 (-1)
    = Ok frames /\
    (1 <= length frames <= 3)%nat /\
    frames_sum0 frames
    == inject_Z (signed_total [ev 0 0 1 1; ev 1 0 2 0; ev 0 0 9 1]).
Proof.
  apply (eventsToFrameSequence_conservation
           [ev 0 0 1 1; ev 1 0 2 0; ev 0 0 9 1] 1 2 1 2 (-1)).
  - discriminate.
  - repeat first [apply Forall_nil | apply Forall_cons]; cbv; intuition discriminate.
  - lia.
  - lia.
Defined.

(** With a frame count ([N_frames > 0]) the result has exactly [N_frames]
    frames, whatever the stream, and they are the frames of the call without
    a frame count, fitted: when these are too few, all of them followed by
    zero frames; when they are too many, the last [N_frames] of them. *)
Theorem eventsToFrameSequence_N_frames (events : list event) (h w c : nat)
  (time_window : Q) (N_frames : Z) :
  events <> [] -> Forall (in_bounds h w) events -> (0 < c)%nat ->
  (0 < N_frames)%Z ->
  exists frames0 frames : list ndarray3,
    eventsToFrameSequence events h w c time_window (-1) = Ok frames0 /\
    eventsToFrameSequence events h w c time_window N_frames = Ok frames /\
    Z.of_nat (length frames) = N_frames /\
    ((length frames0 <= Z.to_nat N_frames)%nat ->
     frames = frames0 ++ repeat (np_zeros3 h w c)
                           (Z.to_nat N_frames - length frames0)) /\
    ((Z.to_nat N_frames <= length frames0)%nat ->
     frames = skipn (length frames0 - Z.to_nat N_frames) frames0).
Proof.
  intros Hne Hb Hc HN. destruct events as [|e evs]; [congruence|].
  unfold eventsToFrameSequence.
  destruct (eventsToFrameSequence_loop_frames (ev_ts e) time_window h w c evs Hc
              e 1%Z (np_zeros3 h w c) [] Hb (np_zeros3_shape h w c))
    as (new & E & _ & _).
  rewrite E. cbn [bind app]. unfold fit_N_frames.
  replace (0 <? N_frames)%Z with true by (symmetry; apply Z.ltb_lt; lia).
  change (0 <? -1)%Z with false. cbv iota.
  exists new. eexists. split; [reflexivity|]. split; [reflexivity|]. split.
  - rewrite length_skipn, !length_app, repeat_length. lia.
  - rewrite length_app, repeat_length. split; intros Hlen.
    + replace (length new + (Z.to_nat N_frames - length new) - Z.to_nat N_frames)%nat
        with O by lia.
      reflexivity.
    + replace (Z.to_nat N_frames - length new)%nat with O by lia.
      cbn [repeat]. rewrite app_nil_r, Nat.add_0_r. reflexivity.
Qed.

Lemma eventsToFrameSequence_N_frames_witness :
  (exists frames0 frames : list ndarray3,
     eventsToFrameSequence [ev 0 0 1 1; ev 1 0 4 0; ev 0 0 6 1; ev 1 0 9 1]
       1 2 1 2 (-1) = Ok frames0 /\
     eventsToFrameSequence [ev 0 0 1 1; ev 1 0 4 0; ev 0 0 6 1; ev 1 0 9 1]
       1 2 1 2 5 = Ok frames /\
     Z.of_nat (length frames) = 5%Z /\
     ((length frames0 <= Z.to_nat 5)%nat ->
      frames = frames0 ++ repeat (np_zeros3 1 2 1) (Z.to_nat 5 - length frames0)) /\
     ((Z.to_nat 5 <= length frames0)%nat ->
      frames = skipn (length frames0 - Z.to_nat 5) frames0))
  /\
  (exists frames0 frames : list ndarray3,
     eventsToFrameSequence [ev 0 0 1 1; ev 1 0 4 0; ev 0 0 6 1; ev 1 0 9 1]
       1 2 1 2 (-1) = Ok frames0 /\
     eventsToFrameSequence [ev 0 0 1 1; ev 1 0 4 0; ev 0 0 6 1; ev 1 0 9 1]
       1 2 1 2 2 = Ok frames /\
     Z.of_nat (length frames) = 2%Z /\
     ((length frames0 <= Z.to_nat 2)%nat ->
      frames = frames0 ++ repeat (np_zeros3 1 2 1) (Z.to_nat 2 - length frames0)) /\
     ((Z.to_nat 2 <= length frames0)%nat ->
      frames = skipn (length frames0 - Z.to_nat 2) frames0)).
Proof.
  split.
  - apply (eventsToFrameSequence_N_frames
             [ev 0 0 1 1; ev 1 0 4 0; ev 0 0 6 1; ev 1 0 9 1] 1 2 1 2 5).
    + discriminate.
    + repeat first [apply Forall_nil | apply Forall_cons]; cbv; intuition discriminate.
    + lia.
    + lia.
  - apply (eventsToFrameSequence_N_frames
             [ev 0 0 1 1; ev 1 0 4 0; ev 0 0 6 1; ev 1 0 9 1] 1 2 1 2 2).
    + discriminate.
    + repeat first [apply Forall_nil | apply Forall_cons]; cbv; intuition discriminate.
    + lia.
    + lia.
Defined.

(** ** FlipImages *)

Lemma map_rev_rev {A : Type} (l : list (list A)) : map (@rev A) (map (@rev A) l) = l.
Proof.
  rewrite map_map. rewrite <- (map_id l) at 2. apply map_ext. apply rev_involutive.
Qed.

Lemma np_flip_involutive (image : ndarray3) (axis : Z) :
  (-3 <= axis < 3)%Z ->
  exists flipped,
    np_flip image axis = Return flipped /\ np_flip flipped axis = Return image.
Proof.
  intros H. unfold np_flip.
  destruct ((axis =? 0) || (axis =? -3))%Z eqn:E0.
  - eexists. split; [reflexivity|]. now rewrite rev_involutive.
  - destruct ((axis =? 1) || (axis =? -2))%Z eqn:E1.
    + eexists. split; [reflexivity|]. now rewrite map_rev_rev.
    + destruct ((axis =? 2) || (axis =? -1))%Z eqn:E2.
      * eexists. split; [reflexivity|]. rewrite map_map. apply f_equal.
        rewrite <- (map_id image) at 2.
        apply map_ext. intros row. apply map_rev_rev.
      * apply orb_false_elim in E0 as [? ?], E1 as [? ?], E2 as [? ?]. lia.
Qed.

(** Flipping twice along the same axis gives the frames back: for an axis
    of a three-axis frame (negative axes count from the last), [FlipImages]
    returns as many frames as it got, and applied to its own result it
    returns the original sequence. *)
Theorem FlipImages_involutive (image_list : list ndarray3) (axis : Z) :
  (-3 <= axis < 3)%Z ->
  exists flipped : list ndarray3,
    FlipImages image_list axis = Return flipped /\
    length flipped = length image_list /\
    FlipImages flipped axis = Return image_list.
Proof.
  intros H. induction image_list as [|image l IH].
  - exists []. simpl. auto.
  - destruct IH as (rest & E1 & Hlen & E2).
    destruct (np_flip_involutive image axis H) as (f & F1 & F2).
    exists (f :: rest). cbn [FlipImages]. rewrite F1, F2. cbn [bind_ext].
    rewrite E1, E2. cbn [bind_ext]. simpl. auto.
Qed.

Lemma FlipImages_involutive_witness :
  exists flipped : list ndarray3,
    FlipImages [[[[1; 2]; [3; 4]]; [[5; 6]; [7; 8]]]] 1 = Return flipped /\
    length flipped = 1%nat /\
    FlipImages flipped 1 = Return [[[[1; 2]; [3; 4]]; [[5; 6]; [7; 8]]]].
Proof.
  apply (FlipImages_involutive [[[[1; 2]; [3; 4]]; [[5; 6]; [7; 8]]]] 1). lia.
Defined.

(** ** generateFrames with a time window *)

Lemma from_boundary_skipn (ts : Q) (evs rest : list event) :
  from_boundary ts evs = Some rest ->
  rest = skipn (length (consumed ts evs)) evs.
Proof.
  induction evs as [|e evs IH]; simpl; [discriminate|].
  destruct (Qgtb (ev_ts e) ts); [now intros [= <-] | exact IH].
Qed.

Lemma windowed_timesteps_length (time_window : option Q) (grid : list Q) :
  forall evs : list event,
    length (windowed_timesteps time_window grid evs) = length (timesteps grid evs).
Proof.
  induction grid as [|ts grid IH]; intros evs; simpl; [reflexivity|].
  destruct (from_boundary ts evs); simpl; auto.
Qed.

(** One scan, with or without window: the cursor stops behind the first event
    beyond [ts], and the frame counts the events before it that pass the
    window test. *)
Lemma generateFrames_scan_window (ts : Q) (time_window : option Q) (h w c : nat)
  (evs : list event) :
  (201 < h)%nat -> (154 < w)%nat -> (0 < c)%nat -> window_ok time_window ->
  forall (it : nat) (img : ndarray3) (v : nat -> nat -> Z),
    Forall (in_bounds h w) evs -> shape3 h w c img -> holds h w img v ->
    match from_boundary ts evs with
    | Some _ =>
        exists f,
          generateFrames_scan ts time_window evs it img
          = Ok ((it + S (length (consumed ts evs)))%nat, Some f) /\
          forall y x, (y < h)%nat -> (x < w)%nat ->
                      get3 f y x 0
                      = Some (if Nat.eqb y 201 && Nat.eqb x 154 then 0
                              else inject_Z
                                     (v y x
                                      + signed_count
                                          (filter (in_window time_window ts)
                                                  (consumed ts evs)) y x))
    | None =>
        generateFrames_scan ts time_window evs it img
        = Ok ((it + length evs)%nat, None)
    end.
Proof.
  intros Hh Hw Hc Hwin.
  induction evs as [|e evs IH]; intros it img v Hb Hs Hv.
  - simpl. now rewrite Nat.add_0_r.
  - inversion Hb as [|? ? He Hb']; subst.
    cbn [generateFrames_scan from_boundary consumed].
    change (match time_window with
            | Some tw => Qgtb (ev_ts e) (ts - tw)
            | None => true
            end) with (in_window time_window ts e).
    destruct (in_window time_window ts e) eqn:Ein.
    + destruct (Qgtb (ev_ts e) ts).
      * destruct (blank_pixel_holds h w c img v Hh Hw Hc Hs Hv) as (f & -> & Hf).
        exists f. cbn [bind length]. rewrite Nat.add_1_r. split; [reflexivity|].
        intros y x Hy Hx. rewrite (Hf y x Hy Hx).
        unfold signed_count. simpl. now rewrite Z.add_0_r.
      * destruct (accumulate_holds h w c e img v Hc He Hs Hv)
          as (img' & -> & Hs' & Hv').
        cbn [bind filter]. rewrite Ein.
        specialize (IH (S it) img' _ Hb' Hs' Hv').
        destruct (from_boundary ts evs) as [rest|].
        -- destruct IH as (f & E & Hf). exists f. split.
           ++ rewrite E. cbn [length]. do 2 f_equal. lia.
           ++ intros y x Hy Hx. rewrite (Hf y x Hy Hx).
              rewrite signed_count_cons. now rewrite Z.add_assoc.
        -- rewrite IH. cbn [length]. do 2 f_equal. lia.
    + assert (Hts : Qgtb (ev_ts e) ts = false).
      { destruct time_window as [tw|]; [|discriminate]. simpl in *.
        apply Qgtb_false in Ein. apply Qgtb_false. lra. }
      rewrite Hts. cbn [filter]. rewrite Ein.
      specialize (IH (S it) img v Hb' Hs Hv).
      destruct (from_boundary ts evs) as [rest|].
      * destruct IH as (f & E & Hf). exists f. split; [|exact Hf].
        rewrite E. cbn [length]. do 2 f_equal. lia.
      * rewrite IH. cbn [length]. do 2 f_equal. lia.
Qed.

Lemma generateFrames_loop_window (events : list event) (h w c : nat)
  (time_window : option Q) (grid : list Q) :
  (201 < h)%nat -> (154 < w)%nat -> (0 < c)%nat -> window_ok time_window ->
  Forall (in_bounds h w) events ->
  forall (it : nat) (acc : list ndarray3),
    exists (it' : nat) (new : list ndarray3),
      generateFrames_loop events h w c time_window grid it acc
      = Ok (it', acc ++ new) /\
      skipn it' events = remainder grid (skipn it events) /\
      Forall2 (frame_of h w) new
        (windowed_timesteps time_window grid (skipn it events)).
Proof.
  intros Hh Hw Hc Hwin Hb. induction grid as [|ts grid IH]; intros it acc.
  - exists it, []. simpl. rewrite app_nil_r. auto.
  - cbn [generateFrames_loop windowed_timesteps remainder].
    pose proof (generateFrames_scan_window ts time_window h w c (skipn it events)
                  Hh Hw Hc Hwin it (np_zeros3 h w c) (fun _ _ => 0%Z)
                  (Forall_skipn _ _ _ Hb) (np_zeros3_shape h w c)
                  (np_zeros3_holds h w c Hc)) as Hscan.
    destruct (from_boundary ts (skipn it events)) as [rest|] eqn:Erest.
    + destruct Hscan as (f & E & Hf). rewrite E. cbn [bind fst snd].
      destruct (IH (it + S (length (consumed ts (skipn it events))))%nat
                  (acc ++ [f])) as (it' & new & Eloop & Hrem & Hnew).
      apply from_boundary_skipn in Erest.
      assert (Htl : tl rest
                    = skipn (it + S (length (consumed ts (skipn it events))))
                        events).
      { rewrite Erest, tl_skipn, skipn_skipn. f_equal. lia. }
      exists it', (f :: new). rewrite Eloop, <- app_assoc.
      split; [reflexivity|]. rewrite Htl. split; [exact Hrem|].
      constructor; [exact Hf | exact Hnew].
    + rewrite Hscan. cbn [bind fst snd].
      rewrite generateFrames_loop_exhausted.
      * exists (it + length (skipn it events))%nat, []. rewrite app_nil_r.
        split; [reflexivity|]. split; [|constructor].
        apply skipn_all2. rewrite length_skipn. lia.
      * apply skipn_all2. rewrite length_skipn. lia.
Qed.

(** The returned remainder and the number of frames of [generateFrames]
    depend on the timestamps only, not on the time window (unset or not
    negative): the remainder is what is left after dropping, for each grid
    timestamp in turn, the events up to and including the first one beyond
    it, and there is one frame per grid timestamp that has such an event. *)
Theorem generateFrames_remainder (events : list event) (grid : list Q)
  (h w c : nat) (time_window : option Q) :
  (201 < h)%nat -> (154 < w)%nat -> (0 < c)%nat -> window_ok time_window ->
  Forall (in_bounds h w) events ->
  exists frames : list ndarray3,
    generateFrames events grid h w c time_window
    = Ok (frames, remainder grid events) /\
    length frames = length (timesteps grid events).
Proof.
  intros Hh Hw Hc Hwin Hb. unfold generateFrames.
  destruct (generateFrames_loop_window events h w c time_window grid
              Hh Hw Hc Hwin Hb O []) as (it & frames & E & Hrem & Hf).
  rewrite E. cbn [bind fst snd app]. exists frames. rewrite Hrem.
  split; [reflexivity|].
  rewrite (Forall2_length Hf). apply windowed_timesteps_length.
Qed.

Lemma generateFrames_remainder_witness :
  exists frames : list ndarray3,
    generateFrames [ev 3 2 1 1; ev 0 0 5 1; ev 1 1 6 0] [2; 4] 260 346 1 (Some 0.5)
    = Ok (frames, remainder [2; 4] [ev 3 2 1 1; ev 0 0 5 1; ev 1 1 6 0]) /\
    length frames
    = length (timesteps [2; 4] [ev 3 2 1 1; ev 0 0 5 1; ev 1 1 6 0]).
Proof.
  apply (generateFrames_remainder
           [ev 3 2 1 1; ev 0 0 5 1; ev 1 1 6 0] [2; 4] 260 346 1 (Some 0.5)).
  - lia.
  - lia.
  - lia.
  - simpl. lra.
  - repeat first [apply Forall_nil | apply Forall_cons]; cbv; intuition discriminate.
Defined.

(** With a time window [tw >= 0] every frame of [generateFrames] has 0 at
    pixel (201, 154) and, at every other pixel, the positive minus the
    non-positive events of its timestep at that pixel whose timestamp is
    later than [ts - tw].  The window and the grid timestamps are integers of
    magnitude at most 2^51: for these the code forms [ts - tw] without
    rounding, so that the bound of the embedding is the bound of the code.
    The events of a timestep are those from the cursor up to the first event
    beyond [ts], which is read and counted in no frame. *)
Theorem generateFrames_window_pixel_values (events : list event) (grid : list Q)
  (h w c : nat) (tw : Q) :
  (201 < h)%nat -> (154 < w)%nat -> (0 < c)%nat -> 0 <= tw ->
  exact_time tw -> Forall exact_time grid ->
  Forall (in_bounds h w) events ->
  exists (frames : list ndarray3) (tail : list event),
    generateFrames events grid h w c (Some tw) = Ok (frames, tail) /\
    Forall2 (frame_of h w) frames (windowed_timesteps (Some tw) grid events).
Proof.
  intros Hh Hw Hc Htw _ _ Hb. unfold generateFrames.
  destruct (generateFrames_loop_window events h w c (Some tw) grid
              Hh Hw Hc Htw Hb O []) as (it & frames & E & Hrem & Hf).
  rewrite E. cbn [bind fst snd app]. eauto.
Qed.

Lemma generateFrames_window_pixel_values_witness :
  exists (frames : list ndarray3) (tail : list event),
    generateFrames [ev 3 2 1 1; ev 0 0 2 1; ev 5 5 2 0; ev 1 1 6 0] [2; 4]
      260 346 1 (Some 1)
    = Ok (frames, tail) /\
    Forall2 (frame_of 260 346) frames
      (windowed_timesteps (Some 1) [2; 4]
         [ev 3 2 1 1; ev 0 0 2 1; ev 5 5 2 0; ev 1 1 6 0]).
Proof.
  apply (generateFrames_window_pixel_values
           [ev 3 2 1 1; ev 0 0 2 1; ev 5 5 2 0; ev 1 1 6 0] [2; 4] 260 346 1 1).
  - lia.
  - lia.
  - lia.
  - lra.
  - split; [reflexivity | vm_compute; discriminate].
  - repeat first [apply Forall_nil | apply Forall_cons];
      (split; [reflexivity | vm_compute; discriminate]).
  - repeat first [apply Forall_nil | apply Forall_cons]; cbv; intuition discriminate.
Defined.

(** ** ConcatenateEvents: what every frame holds *)

Lemma nth_error_imap {A B : Type} (f : nat -> A -> B) (l : list A) :
  forall i k, nth_error (imap f i l) k = option_map (f (i + k)%nat) (nth_error l k).
Proof.
  induction l as [|a l IH]; intros i [|k]; simpl; auto.
  - now rewrite Nat.add_0_r.
  - rewrite IH. now rewrite Nat.add_succ_r.
Qed.

Lemma nth_error_replace_nth {A : Type} (c : nat) (v : A) (l : list A) :
  forall k, nth_error (replace_nth c v l) k
            = if Nat.eqb k c then option_map (fun _ => v) (nth_error l c)
              else nth_error l k.
Proof.
  revert c. induction l as [|a l IH]; intros [|c] [|k]; simpl; auto;
    now destruct (Nat.eqb k c).
Qed.

Lemma set_channel_get3 (c : nat) (m : ndarray2) (img : ndarray3) (y x ch : nat) :
  get3 (set_channel c m img) y x ch
  = if Nat.eqb ch c then option_map (fun _ => at2 m y x) (get3 img y x c)
    else get3 img y x ch.
Proof.
  unfold get3, set_channel. rewrite nth_error_imap.
  destruct (nth_error img y) as [row|]; simpl; [|now destruct (Nat.eqb ch c)].
  rewrite nth_error_imap.
  destruct (nth_error row x) as [cell|]; simpl; [|now destruct (Nat.eqb ch c)].
  apply nth_error_replace_nth.
Qed.

Lemma get2_at2 (a : ndarray2) (y x : nat) (q : Q) :
  get2 a y x = Some q -> at2 a y x = q.
Proof.
  unfold get2, at2. destruct (nth_error a y) as [row|] eqn:E; [|discriminate].
  intros H. rewrite (nth_error_nth _ _ [] E). now apply nth_error_nth.
Qed.

Lemma np_divide_get2 (junk : nat -> nat -> Q) (a b : ndarray2) (y x : nat) :
  get2 (np_divide_where_nonzero junk a b) y x
  = option_map (fun q => if Qeq_bool q 0 then junk y x else at2 a y x / q)
      (get2 b y x).
Proof.
  unfold get2, np_divide_where_nonzero. rewrite nth_error_imap.
  destruct (nth_error b y) as [row|]; simpl; [|reflexivity].
  now rewrite nth_error_imap.
Qed.

Lemma get3_shape (h w c : nat) (img : ndarray3) (y x ch : nat) :
  shape3 h w c img -> (y < h)%nat -> (x < w)%nat -> (ch < c)%nat ->
  exists q, get3 img y x ch = Some q.
Proof.
  intros [Hh Hrows] Hy Hx Hch. unfold get3.
  destruct (nth_error img y) as [row|] eqn:Er;
    [|apply nth_error_None in Er; lia].
  rewrite Forall_forall in Hrows.
  destruct (Hrows row (nth_error_In _ _ Er)) as [Hw Hcells].
  destruct (nth_error row x) as [cell|] eqn:Ec;
    [|apply nth_error_None in Ec; lia].
  rewrite Forall_forall in Hcells.
  specialize (Hcells cell (nth_error_In _ _ Ec)).
  destruct (nth_error cell ch) as [q|] eqn:Eq; [eauto|].
  apply nth_error_None in Eq. lia.
Qed.

Lemma alter2_get2 (f : Q -> Q) (y x : Z) (a a' : ndarray2) :
  (0 <= y)%Z -> (0 <= x)%Z ->
  alter2 f y x a = Ok a' ->
  forall y' x',
    get2 a' y' x'
    = if ((Z.of_nat y' =? y) && (Z.of_nat x' =? x))%Z
      then option_map f (get2 a y' x')
      else get2 a y' x'.
Proof.
  intros Hy Hx H y' x'. unfold alter2 in H.
  destruct (py_alter_lookup _ _ _ _ Hy H) as (row & row' & Hrow & Frow & Ha').
  destruct (py_alter_lookup _ _ _ _ Hx Frow) as (q & q' & Hq & Fq & Hrow').
  injection Fq as <-.
  unfold get2. rewrite Ha'.
  destruct (Z.of_nat y' =? y)%Z eqn:Ey; simpl; [|reflexivity].
  apply Z.eqb_eq in Ey. subst y. rewrite Nat2Z.id in Hrow. rewrite Hrow, Hrow'.
  destruct (Z.of_nat x' =? x)%Z eqn:Ex; simpl; [|reflexivity].
  apply Z.eqb_eq in Ex. subst x. rewrite Nat2Z.id in Hq. now rewrite Hq.
Qed.

Lemma inject_Z_nonzero (k : Z) : k <> 0%Z -> Qeq_bool (inject_Z k) 0 = false.
Proof.
  intros H. apply not_true_iff_false. rewrite Qeq_bool_iff.
  unfold Qeq, inject_Z. simpl. lia.
Qed.

Lemma positive_count_cons (e : event) (evs : list event) (y x : nat) :
  positive_count (e :: evs) y x
  = ((if at_pixel y x e && Qgtb (ev_pol e) 0 then 1 else 0)
     + positive_count evs y x)%Z.
Proof.
  unfold positive_count. simpl.
  destruct (at_pixel y x e && Qgtb (ev_pol e) 0); simpl length; lia.
Qed.

Lemma nonpositive_count_cons (e : event) (evs : list event) (y x : nat) :
  nonpositive_count (e :: evs) y x
  = ((if at_pixel y x e && negb (Qgtb (ev_pol e) 0) then 1 else 0)
     + nonpositive_count evs y x)%Z.
Proof.
  unfold nonpositive_count. simpl.
  destruct (at_pixel y x e && negb (Qgtb (ev_pol e) 0)); simpl length; lia.
Qed.

Lemma np_zeros2_get2 (h w y x : nat) :
  (y < h)%nat -> (x < w)%nat -> get2 (np_zeros2 h w) y x = Some 0.
Proof.
  intros Hy Hx. unfold get2, np_zeros2.
  rewrite nth_error_repeat by assumption. now rewrite nth_error_repeat.
Qed.

Lemma np_zeros_tally (h w : nat) :
  tally h w (np_zeros3 h w 3) (np_zeros2 h w) (np_zeros2 h w)
    (fun _ _ => 0%Z) (fun _ _ => 0%Z) (fun _ _ => 0).
Proof.
  intros y x Hy Hx. unfold get3, np_zeros3.
  rewrite !np_zeros2_get2 by assumption.
  rewrite nth_error_repeat by assumption. rewrite nth_error_repeat by assumption.
  simpl. auto.
Qed.

(** Accumulating one in-bounds event in the three arrays. *)
Lemma tally_step (h w : nat) (ts step : Q) (e : event) (img : ndarray3)
  (cm tm : ndarray2) (p n : nat -> nat -> Z) (r : nat -> nat -> Q) :
  in_bounds h w e -> shape3 h w 3 img -> shape2 h w cm -> shape2 h w tm ->
  tally h w img cm tm p n r ->
  exists img' cm' tm',
    (if Qgtb (ev_pol e) 0
     then alter3 (fun q => q + 1) (py_int (ev_y e)) (py_int (ev_x e)) 0 img
     else alter3 (fun q => q + 1) (py_int (ev_y e)) (py_int (ev_x e)) 1 img)
    = Ok img' /\
    alter2 (fun q => q + 1) (py_int (ev_y e)) (py_int (ev_x e)) cm = Ok cm' /\
    alter2 (fun q => Qabs (ts - ev_ts e - step) / step + q)
      (py_int (ev_y e)) (py_int (ev_x e)) tm = Ok tm' /\
    shape3 h w 3 img' /\ shape2 h w cm' /\ shape2 h w tm' /\
    tally h w img' cm' tm'
      (fun y x => (p y x + (if at_pixel y x e && Qgtb (ev_pol e) 0 then 1 else 0))%Z)
      (fun y x => (n y x + (if at_pixel y x e && negb (Qgtb (ev_pol e) 0)
                            then 1 else 0))%Z)
      (fun y x => if at_pixel y x e then residual ts step e + r y x else r y x).
Proof.
  intros [Hx Hy] Hs Hcm Htm Ht.
  destruct (alter2_total (fun q => q + 1) (py_int (ev_y e)) (py_int (ev_x e))
              h w cm Hcm Hy Hx) as [cm' Ecm].
  destruct (alter2_total (fun q => Qabs (ts - ev_ts e - step) / step + q)
              (py_int (ev_y e)) (py_int (ev_x e)) h w tm Htm Hy Hx) as [tm' Etm].
  assert (Himg : exists img',
             (if Qgtb (ev_pol e) 0
              then alter3 (fun q => q + 1) (py_int (ev_y e)) (py_int (ev_x e)) 0 img
              else alter3 (fun q => q + 1) (py_int (ev_y e)) (py_int (ev_x e)) 1 img)
             = Ok img' /\ shape3 h w 3 img' /\
             forall y x ch,
               get3 img' y x ch
               = if at_pixel y x e
                    && (Z.of_nat ch =? (if Qgtb (ev_pol e) 0 then 0 else 1))%Z
                 then option_map (fun q => q + 1) (get3 img y x ch)
                 else get3 img y x ch).
  { destruct (Qgtb (ev_pol e) 0).
    - destruct (alter3_total (fun q => q + 1) (py_int (ev_y e)) (py_int (ev_x e)) 0
                  h w 3 img) as [img' E]; auto; try lia.
      exists img'. split; [exact E|]. split; [eapply alter3_shape; eauto|].
      intros y x ch.
      rewrite (alter3_get3 _ _ _ _ _ _ (proj1 Hy) (proj1 Hx) (Z.le_refl 0) E).
      unfold at_pixel.
      now rewrite (Z.eqb_sym (py_int (ev_y e))), (Z.eqb_sym (py_int (ev_x e))).
    - destruct (alter3_total (fun q => q + 1) (py_int (ev_y e)) (py_int (ev_x e)) 1
                  h w 3 img) as [img' E]; auto; try lia.
      exists img'. split; [exact E|]. split; [eapply alter3_shape; eauto|].
      intros y x ch.
      rewrite (alter3_get3 _ _ _ _ _ _ (proj1 Hy) (proj1 Hx) Z.le_0_1 E).
      unfold at_pixel.
      now rewrite (Z.eqb_sym (py_int (ev_y e))), (Z.eqb_sym (py_int (ev_x e))). }
  destruct Himg as (img' & Eimg & Hs' & Hget).
  exists img', cm', tm'.
  split; [exact Eimg|]. split; [exact Ecm|]. split; [exact Etm|].
  split; [exact Hs'|].
  split; [exact (alter2_shape _ _ _ _ _ _ _ Hcm Ecm)|].
  split; [exact (alter2_shape _ _ _ _ _ _ _ Htm Etm)|].
  intros y x Hy' Hx'. destruct (Ht y x Hy' Hx') as (H0 & H1 & Hc & Hr).
  split; [|split; [|split]].
  - rewrite Hget, H0.
    destruct (at_pixel y x e), (Qgtb (ev_pol e) 0); simpl;
      rewrite ?inject_Z_succ, ?Z.add_0_r; reflexivity.
  - rewrite Hget, H1.
    destruct (at_pixel y x e), (Qgtb (ev_pol e) 0); simpl;
      rewrite ?inject_Z_succ, ?Z.add_0_r; reflexivity.
  - rewrite (alter2_get2 _ _ _ _ _ (proj1 Hy) (proj1 Hx) Ecm), Hc.
    unfold at_pixel.
    rewrite (Z.eqb_sym (py_int (ev_y e))), (Z.eqb_sym (py_int (ev_x e))).
    destruct ((Z.of_nat y =? py_int (ev_y e)) && (Z.of_nat x =? py_int (ev_x e)))%Z,
      (Qgtb (ev_pol e) 0); simpl; rewrite ?inject_Z_succ; do 2 f_equal; lia.
  - rewrite (alter2_get2 _ _ _ _ _ (proj1 Hy) (proj1 Hx) Etm), Hr.
    unfold at_pixel, residual.
    rewrite (Z.eqb_sym (py_int (ev_y e))), (Z.eqb_sym (py_int (ev_x e))).
    now destruct ((Z.of_nat y =? py_int (ev_y e))
                  && (Z.of_nat x =? py_int (ev_x e)))%Z.
Qed.

(** Closing a frame: channels 0 and 1 stay, channel 2 gets the quotient
    wherever the counter is not zero. *)
Lemma tally_close (junk : nat -> nat -> Q) (h w : nat) (img : ndarray3)
  (cm tm : ndarray2) (p n : nat -> nat -> Z) (r : nat -> nat -> Q) :
  shape3 h w 3 img -> tally h w img cm tm p n r ->
  forall y x, (y < h)%nat -> (x < w)%nat ->
    let f := set_channel 2 (np_divide_where_nonzero junk tm cm)
               (set_channel 2 (np_zeros2 h w) img) in
    get3 f y x 0 = Some (inject_Z (p y x)) /\
    get3 f y x 1 = Some (inject_Z (n y x)) /\
    ((p y x + n y x <> 0)%Z ->
     get3 f y x 2 = Some (r y x / inject_Z (p y x + n y x))).
Proof.
  intros Hs Ht y x Hy Hx f. subst f.
  destruct (Ht y x Hy Hx) as (H0 & H1 & Hc & Hr).
  rewrite !set_channel_get3. simpl Nat.eqb. cbv iota.
  split; [exact H0|]. split; [exact H1|]. intros Hk.
  destruct (get3_shape h w 3 img y x 2 Hs Hy Hx ltac:(lia)) as [q ->].
  simpl option_map. f_equal.
  apply get2_at2. rewrite np_divide_get2, Hc. simpl option_map.
  rewrite (inject_Z_nonzero _ Hk). now rewrite (get2_at2 _ _ _ _ Hr).
Qed.

(** One scan of [ConcatenateEvents]: cursor and frame. *)
Lemma ConcatenateEvents_scan_frame (junk : nat -> nat -> Q) (ts step : Q)
  (h w : nat) (evs : list event) :
  forall (it : nat) (img : ndarray3) (cm tm : ndarray2)
         (p n : nat -> nat -> Z) (r : nat -> nat -> Q),
    Forall (in_bounds h w) evs ->
    shape3 h w 3 img -> shape2 h w cm -> shape2 h w tm ->
    tally h w img cm tm p n r ->
    match from_boundary ts evs with
    | Some _ =>
        exists f,
          ConcatenateEvents_scan junk ts step h w evs it img cm tm
          = Ok ((it + S (length (consumed ts evs)))%nat, Some f) /\
          forall y x, (y < h)%nat -> (x < w)%nat ->
            let pc := (p y x + positive_count (consumed ts evs) y x)%Z in
            let nc := (n y x + nonpositive_count (consumed ts evs) y x)%Z in
            get3 f y x 0 = Some (inject_Z pc) /\
            get3 f y x 1 = Some (inject_Z nc) /\
            ((pc + nc <> 0)%Z ->
             get3 f y x 2
             = Some (residual_sum ts step (consumed ts evs) y x (r y x)
                     / inject_Z (pc + nc)))
    | None =>
        ConcatenateEvents_scan junk ts step h w evs it img cm tm
        = Ok ((it + length evs)%nat, None)
    end.
Proof.
  induction evs as [|e evs IH]; intros it img cm tm p n r Hb Hs Hcm Htm Ht.
  - simpl. now rewrite Nat.add_0_r.
  - inversion Hb as [|? ? He Hb']; subst.
    cbn [ConcatenateEvents_scan from_boundary consumed].
    destruct (Qgtb (ev_ts e) ts).
    + eexists. rewrite Nat.add_1_r. split; [reflexivity|].
      intros y x Hy Hx. cbv zeta.
      unfold positive_count, nonpositive_count. simpl. rewrite !Z.add_0_r.
      now apply (tally_close junk h w img cm tm p n r Hs Ht y x Hy Hx).
    + destruct (tally_step h w ts step e img cm tm p n r He Hs Hcm Htm Ht)
        as (img' & cm' & tm' & -> & -> & -> & Hs' & Hcm' & Htm' & Ht').
      cbn [bind].
      specialize (IH (S it) img' cm' tm' _ _ _ Hb' Hs' Hcm' Htm' Ht').
      destruct (from_boundary ts evs) as [rest|].
      * destruct IH as (f & E & Hf). exists f. split.
        -- rewrite E. cbn [length]. do 2 f_equal. lia.
        -- intros y x Hy Hx. cbv zeta. cbn [residual_sum].
           rewrite positive_count_cons, nonpositive_count_cons.
           rewrite (Z.add_assoc (p y x)), (Z.add_assoc (n y x)).
           exact (Hf y x Hy Hx).
      * rewrite IH. cbn [length]. do 2 f_equal. lia.
Qed.

Lemma ConcatenateEvents_loop_exhausted (junk : nat -> nat -> nat -> Q)
  (events : list event) (step : Q) (h w it : nat) :
  events <> [] -> skipn it events = [] ->
  forall (grid : list Q) (acc : list ndarray3),
    ConcatenateEvents_loop junk events step h w grid it acc = Ok (it, acc).
Proof.
  intros Hne H. induction grid as [|ts grid IH]; intros acc; [reflexivity|].
  cbn [ConcatenateEvents_loop]. rewrite H.
  destruct events; [congruence|]. simpl. apply IH.
Qed.

Lemma stamped_timesteps_length (grid : list Q) :
  forall evs : list event,
    length (stamped_timesteps grid evs) = length (timesteps grid evs).
Proof.
  induction grid as [|ts grid IH]; intros evs; simpl; [reflexivity|].
  destruct (from_boundary ts evs); simpl; auto.
Qed.

Lemma ConcatenateEvents_loop_frames (junk : nat -> nat -> nat -> Q)
  (events : list event) (step : Q) (h w : nat) (grid : list Q) :
  events <> [] -> Forall (in_bounds h w) events ->
  forall (it : nat) (acc : list ndarray3),
    exists (it' : nat) (new : list ndarray3),
      ConcatenateEvents_loop junk events step h w grid it acc
      = Ok (it', acc ++ new) /\
      skipn it' events = remainder grid (skipn it events) /\
      Forall2 (frame3_of h w step) new (stamped_timesteps grid (skipn it events)).
Proof.
  intros Hne Hb. induction grid as [|ts grid IH]; intros it acc.
  - exists it, []. simpl. rewrite app_nil_r. auto.
  - cbn [ConcatenateEvents_loop stamped_timesteps remainder].
    replace (print_progress it (length events)) with (Ok tt)
      by (destruct events; [congruence | reflexivity]).
    cbn [bind].
    pose proof (ConcatenateEvents_scan_frame (junk (length acc)) ts step h w
                  (skipn it events) it (np_zeros3 h w 3) (np_zeros2 h w)
                  (np_zeros2 h w) _ _ _
                  (Forall_skipn _ _ _ Hb) (np_zeros3_shape h w 3)
                  (np_zeros2_shape h w) (np_zeros2_shape h w)
                  (np_zeros_tally h w)) as Hscan.
    destruct (from_boundary ts (skipn it events)) as [rest|] eqn:Erest.
    + destruct Hscan as (f & E & Hf). rewrite E. cbn [bind fst snd].
      destruct (IH (it + S (length (consumed ts (skipn it events))))%nat
                  (acc ++ [f])) as (it' & new & Eloop & Hrem & Hnew).
      apply from_boundary_skipn in Erest.
      assert (Htl : tl rest
                    = skipn (it + S (length (consumed ts (skipn it events))))
                        events).
      { rewrite Erest, tl_skipn, skipn_skipn. f_equal. lia. }
      exists it', (f :: new). rewrite Eloop, <- app_assoc.
      split; [reflexivity|]. rewrite Htl. split; [exact Hrem|].
      constructor; [exact Hf | exact Hnew].
    + rewrite Hscan. cbn [bind fst snd].
      rewrite ConcatenateEvents_loop_exhausted; auto.
      * exists (it + length (skipn it events))%nat, []. rewrite app_nil_r.
        split; [reflexivity|]. split; [|constructor].
        apply skipn_all2. rewrite length_skipn. lia.
      * apply skipn_all2. rewrite length_skipn. lia.
Qed.

Lemma timesteps_stamped (grid : list Q) :
  forall evs : list event,
    timesteps grid evs = map snd (stamped_timesteps grid evs).
Proof.
  induction grid as [|ts grid IH]; intros evs; cbn [timesteps stamped_timesteps];
    [reflexivity|].
  destruct (from_boundary ts evs); [|reflexivity].
  cbn [map snd]. now rewrite IH.
Qed.

Lemma frame3_of_counts (h w : nat) (step : Q) (frames : list ndarray3)
  (sts : list (Q * list event)) :
  Forall2 (frame3_of h w step) frames sts ->
  Forall2 (frame_counts_of h w) frames (map snd sts).
Proof.
  induction 1 as [|f st frames sts Hf _ IH]; cbn [map]; constructor; [|exact IH].
  intros y x Hy Hx. destruct (Hf y x Hy Hx) as (H0 & H1 & _). now split.
Qed.

(** What channels 0 and 1 of every frame of [ConcatenateEvents] hold: at
    every pixel, channel 0 is the number of positive events of the timestep
    at that pixel and channel 1 the number of non-positive ones.  The events
    of a timestep are those from the cursor up to the first event beyond the
    grid timestamp; that event is read and counted in no frame, and the next
    timestep starts behind it. *)
Theorem ConcatenateEvents_frame_counts (junk : nat -> nat -> nat -> Q)
  (events : list event) (grid : list Q) (h w : nat) :
  events <> [] -> Forall (in_bounds h w) events -> (2 <= length grid)%nat ->
  exists (frames : list ndarray3) (tail : list event),
    ConcatenateEvents junk events grid h w = Ok (frames, tail) /\
    Forall2 (frame_counts_of h w) frames (timesteps grid events).
Proof.
  intros Hne Hb Hg. unfold ConcatenateEvents.
  destruct (last_gap_total grid Hg) as [step Estep]. rewrite Estep. cbn [bind].
  destruct (ConcatenateEvents_loop_frames junk events step h w grid Hne Hb O [])
    as (it & frames & E & Hrem & Hf).
  rewrite E. cbn [bind fst snd app skipn] in *.
  exists frames, (skipn it events). split; [reflexivity|].
  rewrite timesteps_stamped. exact (frame3_of_counts h w step _ _ Hf).
Qed.

Lemma ConcatenateEvents_frame_counts_witness :
  exists (frames : list ndarray3) (tail : list event),
    ConcatenateEvents zero_junk
      [ev 0 0 1 1; ev 0 0 1.5 0; ev 1 1 3 0; ev 0 1 3.2 1; ev 0 0 4 1]
      [2; 3.5] 2 2
    = Ok (frames, tail) /\
    Forall2 (frame_counts_of 2 2) frames
      (timesteps [2; 3.5]
         [ev 0 0 1 1; ev 0 0 1.5 0; ev 1 1 3 0; ev 0 1 3.2 1; ev 0 0 4 1]).
Proof.
  apply (ConcatenateEvents_frame_counts zero_junk
           [ev 0 0 1 1; ev 0 0 1.5 0; ev 1 1 3 0; ev 0 1 3.2 1; ev 0 0 4 1]
           [2; 3.5] 2 2).
  - discriminate.
  - repeat first [apply Forall_nil | apply Forall_cons]; cbv; intuition discriminate.
  - simpl; lia.
Defined.

(** The remainder and the number of frames of [ConcatenateEvents] depend on
    the timestamps only: the remainder is what is left after dropping, for
    each grid timestamp in turn, the events up to and including the first one
    beyond it (nothing once a grid timestamp has no event beyond it), and
    there is one frame per grid timestamp that has such an event. *)
Theorem ConcatenateEvents_remainder (junk : nat -> nat -> nat -> Q)
  (events : list event) (grid : list Q) (h w : nat) :
  events <> [] -> Forall (in_bounds h w) events -> (2 <= length grid)%nat ->
  exists frames : list ndarray3,
    ConcatenateEvents junk events grid h w = Ok (frames, remainder grid events) /\
    length frames = length (timesteps grid events).
Proof.
  intros Hne Hb Hg. unfold ConcatenateEvents.
  destruct (last_gap_total grid Hg) as [step ->]. cbn [bind].
  destruct (ConcatenateEvents_loop_frames junk events step h w grid Hne Hb O [])
    as (it & frames & E & Hrem & Hf).
  rewrite E. cbn [bind fst snd app]. exists frames. rewrite Hrem.
  split; [reflexivity|].
  rewrite (Forall2_length Hf). apply stamped_timesteps_length.
Qed.

Lemma ConcatenateEvents_remainder_witness :
  exists frames : list ndarray3,
    ConcatenateEvents zero_junk [ev 0 0 1 1; ev 1 1 3 0; ev 0 0 4 1; ev 0 1 5 1]
      [2; 2.5] 2 2
    = Ok (frames, remainder [2; 2.5]
                    [ev 0 0 1 1; ev 1 1 3 0; ev 0 0 4 1; ev 0 1 5 1]) /\
    length frames
    = length (timesteps [2; 2.5] [ev 0 0 1 1; ev 1 1 3 0; ev 0 0 4 1; ev 0 1 5 1]).
Proof.
  apply (ConcatenateEvents_remainder zero_junk
           [ev 0 0 1 1; ev 1 1 3 0; ev 0 0 4 1; ev 0 1 5 1] [2; 2.5] 2 2).
  - discriminate.
  - repeat first [apply Forall_nil | apply Forall_cons]; cbv; intuition discriminate.
  - simpl; lia.
Defined.

(** ** generateFrames_temporalROI: the exact number of frames *)

(** [generateFrames_temporalROI] returns exactly as many frames as there are
    grid entries or complete runs of 10001 events (10000 accumulated, one
    read at the threshold and left out), whichever is smaller.  The remainder
    starts behind the last such run when every grid entry got its frame, and
    is empty otherwise. *)
Theorem generateFrames_temporalROI_exact (events : list event) (grid : list Q)
  (h w c : nat) :
  (201 < h)%nat -> (154 < w)%nat -> (0 < c)%nat ->
  Forall (in_bounds h w) events ->
  exists (frames : list ndarray3) (tail : list event),
    generateFrames_temporalROI events grid h w c = Ok (frames, tail) /\
    Z.of_nat (length frames)
    = Z.min (Z.of_nat (length grid))
        (Z.of_nat (length events) / (event_threshold_classifier + 1)) /\
    tail = if Nat.eqb (length frames) (length grid)
           then skipn (Z.to_nat ((event_threshold_classifier + 1)
                                 * Z.of_nat (length frames))) events
           else [].
Proof.
  intros Hh Hw Hc Hb. unfold generateFrames_temporalROI.
  destruct (generateFrames_temporalROI_loop_exact events h w c grid Hh Hw Hc Hb
              O 0%Z []) as (it & k & frames & E & Hlen & Hk & Htail).
  - lia.
  - unfold event_threshold_classifier. lia.
  - rewrite E. cbn [bind fst snd]. exists frames, (skipn it events).
    simpl in Hlen. subst k. split; [reflexivity|]. split.
    + rewrite Hk. rewrite Nat.sub_0_r, Z.add_0_r. reflexivity.
    + rewrite Htail. rewrite Z.sub_0_r. reflexivity.
Qed.

Lemma generateFrames_temporalROI_exact_witness :
  exists (frames : list ndarray3) (tail : list event),
    generateFrames_temporalROI long_stream_example [2; 4] 260 346 1
    = Ok (frames, tail) /\
    length frames = 2%nat /\
    tail = [ev 3 2 1 1].
Proof.
  destruct (generateFrames_temporalROI_exact long_stream_example
              [2; 4] 260 346 1) as (frames & tail & E & Hlen & Htail).
  - lia.
  - lia.
  - lia.
  - apply Forall_repeat. cbv. intuition discriminate.
  - unfold long_stream_example, event_threshold_classifier in Hlen, Htail.
    rewrite repeat_length, Z2Nat.id in Hlen by lia.
    cbn [length] in Hlen. change (20003 / (10000 + 1))%Z with 2%Z in Hlen.
    assert (Hframes : length frames = 2%nat) by lia.
    exists frames, tail. split; [exact E|]. split; [exact Hframes|].
    rewrite Htail, Hframes. reflexivity.
Defined.

(** ** EventBinning *)

Lemma EventBinning_fill_shape (ts step : Q) (h w c : nat) (evs : list event) :
  forall img img' : ndarray3,
    shape3 h w c img -> EventBinning_fill ts step evs img = Ok img' ->
    shape3 h w c img'.
Proof.
  induction evs as [|e evs IH]; intros img img' Hs H; simpl in H.
  - now injection H as <-.
  - do 2 inv_bind H. eapply IH; [|exact H]. eapply alter3_shape; eauto.
Qed.

Lemma EventBinning_loop_frames (events : list event) (h w n_bin : nat) (step : Q)
  (grid : list Q) :
  forall (lead trail : nat) (acc frames : list ndarray3),
    EventBinning_loop events h w n_bin step grid lead trail acc = Ok frames ->
    length frames = (length acc + length grid)%nat /\
    (Forall (shape3 h w n_bin) acc -> Forall (shape3 h w n_bin) frames).
Proof.
  induction grid as [|ts grid IH]; intros lead trail acc frames H.
  - injection H as <-. simpl. split; [lia | auto].
  - cbn [EventBinning_loop] in H. cbv zeta in H. do 2 inv_bind H.
    apply IH in H. destruct H as [Hlen Hshape].
    rewrite length_app in Hlen. simpl in *. split; [lia|].
    intros Hacc. apply Hshape. apply Forall_app. split; [exact Hacc|].
    constructor; [|constructor].
    eapply EventBinning_fill_shape; [apply np_zeros3_shape | eassumption].
Qed.

(** [EventBinning] never returns anything but one frame per grid entry, each
    of shape (im_height, im_width, n_bin). *)
Theorem EventBinning_one_frame_per_entry (events : list event) (grid : list Q)
  (h w n_bin : nat) (bin_step_size : Q) (frames : list ndarray3) :
  EventBinning events grid h w n_bin bin_step_size = Ok frames ->
  length frames = length grid /\ Forall (shape3 h w n_bin) frames.
Proof.
  intros H. apply EventBinning_loop_frames in H. destruct H as [Hlen Hs].
  split; [exact Hlen | apply Hs; constructor].
Qed.

Lemma EventBinning_one_frame_per_entry_witness :
  EventBinning [ev 0 0 3 1; ev 0 0 4 1; ev 0 0 10 1] [5; 5.5] 1 1 2 1
  = Ok [[[[0; 1]]]; [[[0; 1]]]] /\
  length [[[[0; 1]]]; [[[0; 1]]]] = length [5; 5.5] /\
  Forall (shape3 1 1 2) [[[[0; 1]]]; [[[0; 1]]]].
Proof.
  split; [reflexivity|].
  apply (EventBinning_one_frame_per_entry
           [ev 0 0 3 1; ev 0 0 4 1; ev 0 0 10 1] [5; 5.5] 1 1 2 1).
  reflexivity.
Defined.

Lemma first_after_none (bound : Q) (evs : list event) :
  Forall (fun e => ev_ts e <= bound) evs ->
  forall i, first_after bound evs i = None.
Proof.
  induction 1 as [|e evs He _ IH]; intros i; simpl; [reflexivity|].
  apply Qgtb_false in He. rewrite He. apply IH.
Qed.

(** Events are binned only once the stream holds an event beyond the grid
    timestamp: if no event of a non-empty stream is later than any grid
    timestamp, the leading cursor never moves and every frame is zero. *)
Theorem EventBinning_no_later_event (events : list event) (grid : list Q)
  (h w n_bin : nat) (bin_step_size : Q) :
  events <> [] ->
  Forall (fun ts => Forall (fun e => ev_ts e <= ts) events) grid ->
  EventBinning events grid h w n_bin bin_step_size
  = Ok (repeat (np_zeros3 h w n_bin) (length grid)).
Proof.
  intros Hne Hgrid. unfold EventBinning.
  change (repeat (np_zeros3 h w n_bin) (length grid))
    with ([] ++ repeat (np_zeros3 h w n_bin) (length grid)).
  generalize (@nil ndarray3) as acc.
  induction Hgrid as [|ts grid Hts _ IH]; intros acc.
  - simpl. now rewrite app_nil_r.
  - cbn [EventBinning_loop]. cbv zeta.
    replace (print_progress 0 (length events)) with (Ok tt)
      by (destruct events; [congruence | reflexivity]).
    cbn [bind skipn]. rewrite (first_after_none ts events Hts).
    unfold slice. cbn [Nat.sub firstn first_after EventBinning_fill bind].
    rewrite IH. cbn [length repeat]. now rewrite <- app_assoc.
Qed.

Lemma EventBinning_no_later_event_witness :
  EventBinning [ev 0 0 3 1; ev 0 0 4 1] [5; 6] 1 1 2 1
  = Ok (repeat (np_zeros3 1 1 2) (length [5; 6])).
Proof.
  apply (EventBinning_no_later_event [ev 0 0 3 1; ev 0 0 4 1] [5; 6] 1 1 2 1).
  - discriminate.
  - repeat first [apply Forall_nil | apply Forall_cons]; cbv; discriminate.
Defined.

(** ** SelectFrames *)

Lemma skipn_cons_inv {A : Type} (i : nat) (l l' : list A) (a : A) :
  skipn i l = a :: l' -> nth_error l i = Some a /\ skipn (S i) l = l'.
Proof.
  revert l. induction i as [|i IH]; intros [|b l] H; simpl in H; try discriminate.
  - injection H as -> ->. auto.
  - apply IH in H. exact H.
Qed.

Section SelectFramesProperties.

Context {T : Type} `{Number T} {A : Type}.
Variables (images_list : list A) (images_ts : list T) (target_step : T).
Hypothesis stamped : (length images_list <= length images_ts)%nat.

(** One scan: no match, or the first frame from the cursor on whose timestamp
    is within the tolerance. *)
Lemma SelectFrames_scan_sound (ts : T) (imgs : list A) :
  forall i : nat,
    skipn i images_list = imgs ->
    SelectFrames_scan images_ts ts target_step imgs i = Ok None
    \/ exists (img : A) (j : nat),
         SelectFrames_scan images_ts ts target_step imgs i = Ok (Some (img, S j)) /\
         (i <= j)%nat /\
         picked images_list images_ts target_step img (j, ts).
Proof.
  induction imgs as [|img imgs IH]; intros i Hi; [now left|].
  apply skipn_cons_inv in Hi. destruct Hi as [Hnth Hrest].
  cbn [SelectFrames_scan].
  destruct (nth_error images_ts i) as [t|] eqn:Et.
  - destruct (num_ltb (num_abs (num_sub t ts)) target_step) eqn:Eclose.
    + right. exists img, i. split; [reflexivity|]. split; [lia|].
      split; [exact Hnth|]. exists t. auto.
    + destruct (num_gtb (num_sub t ts) num_one); [now left|].
      destruct (IH (S i) Hrest) as [E | (img' & j & E & Hj & Hp)].
      * now left.
      * right. exists img', j. split; [exact E|]. split; [lia | exact Hp].
  - apply nth_error_None in Et.
    assert (i < length images_list)%nat
      by (apply nth_error_Some; congruence).
    lia.
Qed.

Lemma SelectFrames_loop_sound (targets : list T) :
  forall (it : nat) (acc : list A),
    exists (new : list A) (picks : list (nat * T)),
      SelectFrames_loop images_list images_ts target_step targets it acc
      = Ok (acc ++ new) /\
      Forall2 (picked images_list images_ts target_step) new picks /\
      increasing_from it (map fst picks) /\
      subseq (map snd picks) targets.
Proof.
  induction targets as [|ts targets IH]; intros it acc.
  - exists [], []. simpl. rewrite app_nil_r. repeat split; constructor.
  - cbn [SelectFrames_loop].
    destruct (SelectFrames_scan_sound ts (skipn it images_list) it eq_refl)
      as [E | (img & j & E & Hj & Hp)]; rewrite E; cbn [bind].
    + destruct (IH it acc) as (new & picks & E' & Hf & Hinc & Hsub).
      exists new, picks. repeat split; auto. now apply subseq_skip.
    + destruct (IH (S j) (acc ++ [img])) as (new & picks & E' & Hf & Hinc & Hsub).
      exists (img :: new), ((j, ts) :: picks). rewrite E', <- app_assoc.
      split; [reflexivity|]. split; [now constructor|].
      split; [simpl; auto | simpl; now apply subseq_keep].
Qed.

(** What [SelectFrames] returns when every frame has a timestamp: frames of
    the input at strictly increasing indices, each within the tolerance of a
    target, the targets being used in their order and at most once. *)
Theorem SelectFrames_sound (desired_timesteps : list T) :
  exists (out : list A) (picks : list (nat * T)),
    SelectFrames images_list images_ts desired_timesteps target_step = Ok out /\
    Forall2 (picked images_list images_ts target_step) out picks /\
    increasing_from 0 (map fst picks) /\
    subseq (map snd picks) desired_timesteps.
Proof.
  unfold SelectFrames.
  destruct (SelectFrames_loop_sound desired_timesteps O [])
    as (new & picks & E & H').
  exists new, picks. split; [exact E | exact H'].
Qed.

End SelectFramesProperties.

Lemma SelectFrames_sound_witness :
  exists (out : list nat) (picks : list (nat * Q)),
    SelectFrames [10; 11; 12]%nat [0; 0.1; 0.25] [0; 0.2] 0.06 = Ok out /\
    Forall2 (picked [10; 11; 12]%nat [0; 0.1; 0.25] 0.06) out picks /\
    increasing_from 0 (map fst picks) /\
    subseq (map snd picks) [0; 0.2].
Proof.
  apply (SelectFrames_sound [10; 11; 12]%nat [0; 0.1; 0.25] 0.06).
  simpl; lia.
Defined.

(** ** updateContactStatus: the nearest table vector *)

Lemma py_get_nth (l : list Q) (i : nat) :
  (i < length l)%nat -> py_get l (Z.of_nat i) = Ok (nth i l 0).
Proof.
  intros Hi. unfold py_get. rewrite norm_index_of_nat by assumption. simpl.
  destruct (nth_error l i) as [a|] eqn:E.
  - now rewrite (nth_error_nth _ _ 0 E).
  - apply nth_error_None in E. lia.
Qed.

Section NearestRotation.

Variables (math_cos math_sin : Q -> Q) (math_pi : Q) (np_sqrt : Q -> Q).

Lemma nearest_rotation_min (target : Q * Q) (rots : list (list Q)) :
  Forall (fun v => (2 <= length v)%nat) rots ->
  forall (i : Z) (best_rot_diff : Q) (best_rot_idx : Z),
    exists r,
      nearest_rotation np_sqrt target rots i best_rot_diff best_rot_idx = Ok r /\
      ((r = best_rot_idx /\
        Forall (fun rot => best_rot_diff <= rot_distance np_sqrt target rot) rots)
       \/ exists (k : nat) (rot : list Q),
            r = (i + Z.of_nat k)%Z /\
            nth_error rots k = Some rot /\
            rot_distance np_sqrt target rot < best_rot_diff /\
            Forall (fun rot' => rot_distance np_sqrt target rot
                                <= rot_distance np_sqrt target rot') rots /\
            forall (j : nat) (rot' : list Q),
              (j < k)%nat -> nth_error rots j = Some rot' ->
              rot_distance np_sqrt target rot < rot_distance np_sqrt target rot').
Proof.
  induction 1 as [|rot rots Hrot _ IH]; intros i d idx.
  - exists idx. simpl. auto.
  - cbn [nearest_rotation].
    assert (E0 : py_get rot 0 = Ok (nth 0 rot 0))
      by (apply (py_get_nth rot 0); lia).
    assert (E1 : py_get rot 1 = Ok (nth 1 rot 0))
      by (apply (py_get_nth rot 1); lia).
    rewrite E0, E1. cbn [bind].
    fold (rot_distance np_sqrt target rot).
    destruct (Qgtb d (rot_distance np_sqrt target rot)) eqn:E.
    + apply Qgtb_true in E.
      destruct (IH (i + 1)%Z (rot_distance np_sqrt target rot) i)
        as (r & -> & [[-> Hall] | (k & rot' & -> & Hk & Hlt & Hall & Hearlier)]).
      * exists i. split; [reflexivity|]. right. exists O, rot.
        rewrite Z.add_0_r. repeat split; auto.
        -- constructor; [apply Qle_refl | exact Hall].
        -- intros j rot' Hj. lia.
      * eexists. split; [reflexivity|]. right. exists (S k), rot'.
        split; [lia|]. split; [exact Hk|]. split; [lra|]. split.
        -- constructor; [lra | exact Hall].
        -- intros [|j] rot'' Hj Hnth; simpl in Hnth.
           ++ injection Hnth as <-. exact Hlt.
           ++ apply (Hearlier j); [lia | exact Hnth].
    + apply Qgtb_false in E.
      destruct (IH (i + 1)%Z d idx)
        as (r & -> & [[-> Hall] | (k & rot' & -> & Hk & Hlt & Hall & Hearlier)]).
      * exists idx. split; [reflexivity|]. left. split; [reflexivity|].
        constructor; assumption.
      * eexists. split; [reflexivity|]. right. exists (S k), rot'.
        split; [lia|]. split; [exact Hk|]. split; [exact Hlt|]. split.
        -- constructor; [lra | exact Hall].
        -- intros [|j] rot'' Hj Hnth; simpl in Hnth.
           ++ injection Hnth as <-. lra.
           ++ apply (Hearlier j); [lia | exact Hnth].
Qed.

Lemma matmul2_rotate (rotation_angle : Q) (vec : list Q) :
  (2 <= length vec)%nat ->
  matmul2 (let a := rotation_angle * math_pi / 180 in
           ((math_cos a, math_sin a), (- math_sin a, math_cos a))) vec
  = Ok (rotate_vec math_cos math_sin math_pi rotation_angle vec).
Proof.
  intros H. destruct vec as [|a [|b vec]]; simpl in H; try lia. reflexivity.
Qed.

Lemma updateContactStatus_loop_nearest (table : list (list Q))
  (rotation_angle : Q) (rot_mat : (Q * Q) * (Q * Q)) (labels : list Z) :
  (forall vec, (2 <= length vec)%nat ->
               matmul2 rot_mat vec
               = Ok (rotate_vec math_cos math_sin math_pi rotation_angle vec)) ->
  Forall (fun v => (2 <= length v)%nat) table ->
  Forall (fun l => l = 0%Z \/ (1 <= l <= Z.of_nat (length table))%Z) labels ->
  exists out,
    updateContactStatus_loop np_sqrt table rot_mat labels = Ok out /\
    Forall2 (fun l o =>
               if (l =? 0)%Z then o = 0%Z
               else exists vec,
                      nth_error table (Z.to_nat (l - 1)) = Some vec /\
                      nearest_label np_sqrt
                        (rotate_vec math_cos math_sin math_pi rotation_angle vec)
                        table o)
            labels out.
Proof.
  intros Hmat Hv. induction 1 as [|l labels Hl _ IH].
  - exists []. simpl. auto.
  - destruct IH as (rest & Erest & Hrest).
    cbn [updateContactStatus_loop].
    destruct (Z.eqb_spec l 0) as [->|Hne].
    + cbn [bind]. rewrite Erest. cbn [bind].
      exists (0%Z :: rest). split; [reflexivity|]. now constructor.
    + destruct Hl as [Hl|Hl]; [congruence|].
      destruct (nth_error table (Z.to_nat (l - 1))) as [vec|] eqn:Evec;
        [|apply nth_error_None in Evec; lia].
      assert (Hget : py_get table (l - 1) = Ok vec).
      { unfold py_get. rewrite norm_index_nonneg by lia. simpl. now rewrite Evec. }
      rewrite Hget. cbn [bind].
      assert (Hvec : (2 <= length vec)%nat).
      { rewrite Forall_forall in Hv. apply Hv. eapply nth_error_In; eauto. }
      rewrite (Hmat vec Hvec). cbn [bind].
      destruct (nearest_rotation_min
                  (rotate_vec math_cos math_sin math_pi rotation_angle vec)
                  table Hv 1%Z 100 1%Z) as (r & -> & Hr).
      cbn [bind]. rewrite Erest. cbn [bind].
      exists (r :: rest). split; [reflexivity|].
      constructor; [|exact Hrest].
      destruct (Z.eqb_spec l 0); [congruence|].
      exists vec. split; [exact Evec | exact Hr].
Qed.


End NearestRotation.


(** ** updateContactStatus: rotation by zero degrees *)

Section ZeroAngle.

Variables (math_cos math_sin : Q -> Q) (math_pi : Q) (np_sqrt : Q -> Q).

Hypothesis cos_zero : math_cos (0 * math_pi / 180) == 1.
Hypothesis sin_zero : math_sin (0 * math_pi / 180) == 0.
Hypothesis sqrt_compat : forall x y, x == y -> np_sqrt x == np_sqrt y.
Hypothesis sqrt_zero : np_sqrt 0 == 0.
Hypothesis sqrt_pos : forall x, 0 < x -> 0 < np_sqrt x.

Variable table : list (list Q).

Hypothesis two_components : Forall (fun v => (2 <= length v)%nat) table.
Hypothesis distinct :
  forall (j k : nat) (u v : list Q),
    nth_error table j = Some u -> nth_error table k = Some v ->
    nth 0 u 0 == nth 0 v 0 -> nth 1 u 0 == nth 1 v 0 -> j = k.

Lemma Qsquare_pos (u : Q) : ~ u == 0 -> 0 < u * u.
Proof.
  intros Hu. destruct (Qlt_le_dec 0 u) as [Hpos|Hle].
  - now apply Qmult_lt_0_compat.
  - assert (Hneg : 0 < - u).
    { destruct (Qlt_le_dec u 0) as [Hlt|Hge]; [lra|].
      exfalso. apply Hu. now apply Qle_antisym. }
    assert (H2 : 0 < - u * - u) by now apply Qmult_lt_0_compat.
    assert (E : u * u == - u * - u) by ring. now rewrite E.
Qed.

Lemma Qsquare_nonneg (u : Q) : 0 <= u * u.
Proof.
  destruct (Qeq_dec u 0) as [E|E].
  - rewrite E. lra.
  - apply Qlt_le_weak. now apply Qsquare_pos.
Qed.

Lemma rot_distance_zero_inv (a b c d : Q) :
  np_sqrt ((a - c) ^ 2 + (b - d) ^ 2) <= 0 -> a == c /\ b == d.
Proof.
  intros H.
  change ((a - c) ^ 2) with ((a - c) * (a - c)) in H.
  change ((b - d) ^ 2) with ((b - d) * (b - d)) in H.
  destruct (Qlt_le_dec 0 ((a - c) * (a - c) + (b - d) * (b - d))) as [Hpos|Hle].
  - apply sqrt_pos in Hpos. lra.
  - pose proof (Qsquare_nonneg (a - c)) as Ha.
    pose proof (Qsquare_nonneg (b - d)) as Hb.
    split.
    + destruct (Qeq_dec (a - c) 0) as [E|E]; [lra|].
      apply Qsquare_pos in E. lra.
    + destruct (Qeq_dec (b - d) 0) as [E|E]; [lra|].
      apply Qsquare_pos in E. lra.
Qed.

Lemma nearest_label_self (l : Z) (vec : list Q) (o : Z) :
  (1 <= l)%Z -> nth_error table (Z.to_nat (l - 1)) = Some vec ->
  nearest_label np_sqrt (rotate_vec math_cos math_sin math_pi 0 vec) table o ->
  o = l.
Proof.
  intros Hl Hvec Hnear.
  assert (Ht0 : fst (rotate_vec math_cos math_sin math_pi 0 vec) == nth 0 vec 0).
  { unfold rotate_vec. cbv zeta. simpl fst. rewrite cos_zero, sin_zero. ring. }
  assert (Ht1 : snd (rotate_vec math_cos math_sin math_pi 0 vec) == nth 1 vec 0).
  { unfold rotate_vec. cbv zeta. simpl snd. rewrite cos_zero, sin_zero. ring. }
  assert (Hself : rot_distance np_sqrt
                    (rotate_vec math_cos math_sin math_pi 0 vec) vec == 0).
  { unfold rot_distance.
    apply (Qeq_trans _ (np_sqrt 0)); [|exact sqrt_zero]. apply sqrt_compat.
    rewrite Ht0, Ht1.
    change ((nth 0 vec 0 - nth 0 vec 0) ^ 2)
      with ((nth 0 vec 0 - nth 0 vec 0) * (nth 0 vec 0 - nth 0 vec 0)).
    change ((nth 1 vec 0 - nth 1 vec 0) ^ 2)
      with ((nth 1 vec 0 - nth 1 vec 0) * (nth 1 vec 0 - nth 1 vec 0)).
    ring. }
  pose proof (nth_error_In _ _ Hvec) as Hin.
  destruct Hnear as [[_ Hall] | (k & rot & -> & Hk & _ & Hall & _)].
  - rewrite Forall_forall in Hall. specialize (Hall vec Hin). lra.
  - rewrite Forall_forall in Hall. specialize (Hall vec Hin).
    rewrite Hself in Hall. unfold rot_distance in Hall.
    apply rot_distance_zero_inv in Hall. destruct Hall as [H0 H1].
    rewrite Ht0 in H0. rewrite Ht1 in H1.
    rewrite (distinct k (Z.to_nat (l - 1)) rot vec Hk Hvec H0 H1). lia.
Qed.

(** Rotating by 0 degrees gives every label back: with [cos] and [sin] exact
    at 0, a square root that is 0 at 0 and positive elsewhere, and a table
    whose vectors differ in their first two components, [updateContactStatus]
    returns its input labels. *)
Theorem updateContactStatus_zero_angle (labels : list Z) :
  Forall (fun l => l = 0%Z \/ (1 <= l <= Z.of_nat (length table))%Z) labels ->
  updateContactStatus math_cos math_sin math_pi np_sqrt labels table 0
  = Ok labels.
Proof.
  intros Hl. unfold updateContactStatus.
  destruct (updateContactStatus_loop_nearest math_cos math_sin math_pi np_sqrt
              table 0 _ labels
              (fun vec Hvec => matmul2_rotate math_cos math_sin math_pi 0 vec Hvec)
              two_components Hl) as (out & E & Hout).
  cbv zeta in E |- *. rewrite E. f_equal.
  clear E. induction Hout as [|l o labels out Hlo _ IH]; [reflexivity|].
  inversion Hl as [|? ? Hl0 Hl']; subst. f_equal; [|exact (IH Hl')].
  destruct (Z.eqb_spec l 0) as [->|Hne]; [exact Hlo|].
  destruct Hlo as (vec & Hvec & Hnear).
  destruct Hl0 as [?|Hrange]; [congruence|].
  apply (nearest_label_self l vec o); [lia | exact Hvec | exact Hnear].
Qed.

End ZeroAngle.

Lemma updateContactStatus_zero_angle_witness :
  updateContactStatus (fun _ => 1) (fun _ => 0) 3 (fun q => q)
    [0; 2; 1; 0]%Z [[1; 0]; [0; 1; 5]] 0
  = Ok [0; 2; 1; 0]%Z.
Proof.
  apply (updateContactStatus_zero_angle (fun _ => 1) (fun _ => 0) 3 (fun q => q)).
  - reflexivity.
  - reflexivity.
  - intros x y Hxy. exact Hxy.
  - reflexivity.
  - intros x Hx. exact Hx.
  - repeat first [apply Forall_nil | apply Forall_cons]; simpl; lia.
  - intros j k u v Hu Hv H0 H1.
    assert (Hj : (j < 2)%nat)
      by (apply (proj1 (nth_error_Some [[1; 0]; [0; 1; 5]] j)); congruence).
    assert (Hk : (k < 2)%nat)
      by (apply (proj1 (nth_error_Some [[1; 0]; [0; 1; 5]] k)); congruence).
    destruct j as [|[|j]], k as [|[|k]]; try lia; try reflexivity;
      simpl in Hu, Hv; injection Hu as <-; injection Hv as <-;
      vm_compute in H0; discriminate.
  - repeat first [apply Forall_nil | apply Forall_cons]; simpl; lia.
Defined.

(** ** Short grids and empty streams *)

Lemma ConcatenateEvents_short_grid_witness :
  ConcatenateEvents zero_junk [ev 0 0 1 1] [5] 2 2 = Raise IndexError.
Proof.
  apply (ConcatenateEvents_short_grid zero_junk [ev 0 0 1 1] [5] 2 2).
  simpl; lia.
Defined.

Lemma generateFrames_temporalROI_loop_empty (h w c : nat) (grid : list Q) :
  forall (it : nat) (bus : Z) (acc : list ndarray3),
    generateFrames_temporalROI_loop [] h w c grid it bus acc = Ok (it, acc).
Proof.
  induction grid as [|ts grid IH]; intros it bus acc; [reflexivity|].
  cbn [generateFrames_temporalROI_loop]. rewrite skipn_nil. simpl. apply IH.
Qed.

(** On an empty event list the two single-channel accumulators return no
    frame and an empty remainder for every grid, without raising. *)
Theorem single_channel_empty_stream (grid : list Q) (h w c : nat)
  (time_window : option Q) :
  generateFrames [] grid h w c time_window = Ok ([], []) /\
  generateFrames_temporalROI [] grid h w c = Ok ([], []).
Proof.
  split.
  - unfold generateFrames.
    now rewrite (generateFrames_loop_exhausted [] h w c time_window O eq_refl).
  - unfold generateFrames_temporalROI.
    now rewrite generateFrames_temporalROI_loop_empty.
Qed.
